(** * cleanupCveFix.js: a shallow embedding and its properties

    The script clears [common.nodeProcessParams] on every instance of the
    eusec adapter when it runs on Node.js 22 or later.  It talks to the
    outside world through [process.version], [execSync], [console.log] and
    [process.exit]; everything else is string processing.

    The embedding has three layers:
    - [Js]: the ECMAScript built-ins the script calls (string methods,
      [parseInt], number formatting, number comparison, the one regular
      expression);
    - [Run]: the effect monad (console, executed commands, thrown errors and
      [process.exit]);
    - [Script]: the functions of the script, in source order. *)

From Stdlib Require Import ZArith List String Ascii Bool Lia DecimalString.
From Stdlib Require DecimalFacts DecimalPos.
Import ListNotations.
Local Open Scope string_scope.

(* ================================================================== *)
(** ** ECMAScript built-ins used by the script *)

Module Js.

(** Strings are sequences of code units; the model carries the code units
    0..255.  The line feed character has no escape in a literal. *)
Definition LF : ascii := "010"%char.

(** The double quote, likewise. *)
Definition DQ : ascii := "034"%char.

(** Numbers.  [parseInt] only ever produces NaN, an infinity or an
    integer-valued double, so a number is one of those; [Fin 0] stands for
    both zeros, which the script cannot tell apart. *)
Inductive number : Type :=
| NaN
| Fin (z : Z)
| PosInf
| NegInf.

Definition number_eq_dec (a b : number) : {a = b} + {a <> b}.
Proof. decide equality; apply Z.eq_dec. Defined.

(** [a < b] on numbers: false as soon as one side is NaN. *)
Definition lt (a b : number) : bool :=
  match a, b with
  | NaN, _ | _, NaN => false
  | Fin x, Fin y => (x <? y)%Z
  | NegInf, (Fin _ | PosInf) => true
  | Fin _, PosInf => true
  | _, _ => false
  end.

(** [a >= b] on numbers, likewise false as soon as one side is NaN. *)
Definition ge (a b : number) : bool :=
  match a, b with
  | NaN, _ | _, NaN => false
  | _, _ => negb (lt a b)
  end.

(** *** Rounding a mathematical integer to a double

    Round to nearest, ties to even, on a 53-bit significand; magnitudes from
    [2^1024] on become infinite. *)
Definition round_nat (n : Z) : Z :=
  if (n <? 2 ^ 53)%Z then n
  else
    let e := (Z.log2 n - 52)%Z in
    let q := Z.shiftr n e in
    let r := Z.land n (Z.ones e) in
    let half := Z.shiftl 1 (e - 1) in
    let q' := if (half <? r)%Z || ((r =? half)%Z && Z.odd q)
              then (q + 1)%Z else q in
    Z.shiftl q' e.

Definition to_double (z : Z) : number :=
  let m := round_nat (Z.abs z) in
  if (2 ^ 1024 <=? m)%Z then (if (z <? 0)%Z then NegInf else PosInf)
  else Fin (Z.sgn z * m).

(** *** Characters *)

Definition is_digit (c : ascii) : bool :=
  let n := nat_of_ascii c in (48 <=? n)%nat && (n <=? 57)%nat.

Definition digit_value (c : ascii) : Z := Z.of_nat (nat_of_ascii c) - 48.

(** WhiteSpace and LineTerminator code units (those below 256): TAB, LF, VT,
    FF, CR, SP and NBSP. *)
Definition is_space (c : ascii) : bool :=
  let n := nat_of_ascii c in
  ((9 <=? n)%nat && (n <=? 13)%nat) || (n =? 32)%nat || (n =? 160)%nat.

(** *** String methods *)

Fixpoint trim_start (s : string) : string :=
  match s with
  | String c s' => if is_space c then trim_start s' else s
  | EmptyString => EmptyString
  end.

(** Drops trailing white space: a character is kept when it is not a space
    or when something is kept after it. *)
Fixpoint trim_end (s : string) : string :=
  match s with
  | String c s' =>
      match trim_end s' with
      | EmptyString => if is_space c then EmptyString else String c EmptyString
      | t => String c t
      end
  | EmptyString => EmptyString
  end.

(** [s.trim()] *)
Definition trim (s : string) : string := trim_end (trim_start s).

(** [s.split(sep)] for a one-character separator; the result is never
    empty. *)
Fixpoint split (sep : ascii) (s : string) : list string :=
  match s with
  | EmptyString => [EmptyString]
  | String c s' =>
      if Ascii.eqb c sep then EmptyString :: split sep s'
      else match split sep s' with
           | piece :: rest => String c piece :: rest
           | [] => [String c EmptyString]
           end
  end.

(** [a[0]] on an array of strings; [split] never makes the default
    matter. *)
Definition first (a : list string) : string := hd EmptyString a.

(** [s.substring(1)] *)
Definition substring1 (s : string) : string :=
  match s with
  | String _ s' => s'
  | EmptyString => EmptyString
  end.

(** *** parseInt(s, 10) *)

(** The longest prefix of decimal digits. *)
Fixpoint take_digits (s : string) : string :=
  match s with
  | String c s' => if is_digit c then String c (take_digits s') else EmptyString
  | EmptyString => EmptyString
  end.

(** The mathematical value of a digit string, most significant digit
    first. *)
Fixpoint digits_value (acc : Z) (s : string) : Z :=
  match s with
  | String c s' => digits_value (10 * acc + digit_value c) s'
  | EmptyString => acc
  end.

(** Leading white space is skipped, one sign is accepted, then the longest
    digit prefix is read; without a digit the result is NaN.  With the radix
    given as 10 no [0x] prefix is recognised. *)
Definition parseInt (s : string) : number :=
  let t := trim_start s in
  let '(negative, body) :=
    match t with
    | String c r =>
        if Ascii.eqb c "-" then (true, r)
        else if Ascii.eqb c "+" then (false, r)
        else (false, t)
    | EmptyString => (false, t)
    end in
  match take_digits body with
  | EmptyString => NaN
  | ds => let v := digits_value 0 ds in
          to_double (if negative then - v else v)
  end.

(** *** Number to string (radix 10), for integer-valued numbers *)

Definition decimal (z : Z) : string := NilZero.string_of_int (Z.to_int z).

(** Number of decimal digits of a positive integer. *)
Definition ndigits (z : Z) : Z := Z.of_nat (String.length (decimal z)).

(** The decimal with [k] significant digits that is nearest to [x] among
    those that round to the same double as [x], if there is one.  The two
    multiples of [10^(d-k)] around [x] are the only candidates; on a tie the
    one with the even last digit wins. *)
Definition shortest_at (x : Z) (k : Z) : option Z :=
  let d := ndigits x in
  let p := (10 ^ (d - k))%Z in
  let lo := (x / p * p)%Z in
  let hi := (lo + p)%Z in
  let ok v := if number_eq_dec (to_double v) (to_double x) then true else false in
  match ok lo, ok hi with
  | true, true =>
      if (x - lo <? hi - x)%Z then Some lo
      else if (hi - x <? x - lo)%Z then Some hi
      else if Z.even (lo / p) then Some lo else Some hi
  | true, false => Some lo
  | false, true => Some hi
  | false, false => None
  end.

(** Tries 1, 2, ... significant digits; with all the digits of [x] the
    search succeeds. *)
Fixpoint shortest_from (x : Z) (k : Z) (fuel : nat) : Z :=
  match fuel with
  | O => x
  | S fuel' =>
      match shortest_at x k with
      | Some v => v
      | None => shortest_from x (k + 1) fuel'
      end
  end.

Definition shortest (x : Z) : Z := shortest_from x 1 (Z.to_nat (ndigits x)).

Fixpoint strip_zeros_end (s : string) : string :=
  match s with
  | String c s' =>
      match strip_zeros_end s' with
      | EmptyString => if Ascii.eqb c "0" then EmptyString else String c EmptyString
      | t => String c t
      end
  | EmptyString => EmptyString
  end.

(** Positive integers: plain digits up to 21 of them, exponent notation
    beyond. *)
Definition pos_toString (x : Z) : string :=
  let v := shortest x in
  let n := ndigits v in
  if (n <=? 21)%Z then decimal v
  else
    match strip_zeros_end (decimal v) with
    | String c EmptyString => String c ("e+" ++ decimal (n - 1))
    | String c ds => String c ("." ++ ds ++ "e+" ++ decimal (n - 1))
    | EmptyString => EmptyString
    end.

(** What a template literal prints for a number. *)
Definition toString (x : number) : string :=
  match x with
  | NaN => "NaN"
  | PosInf => "Infinity"
  | NegInf => "-Infinity"
  | Fin 0 => "0"
  | Fin (Zpos p) => pos_toString (Zpos p)
  | Fin (Zneg p) => "-" ++ pos_toString (Zpos p)
  end.

(** [a.includes(x)]: SameValueZero, under which NaN is found. *)
Fixpoint includes (a : list number) (x : number) : bool :=
  match a with
  | [] => false
  | y :: a' => if number_eq_dec y x then true else includes a' x
  end.

(** [a.join(sep)] on an array of numbers. *)
Fixpoint join (sep : string) (a : list number) : string :=
  match a with
  | [] => ""
  | [x] => toString x
  | x :: a' => toString x ++ sep ++ join sep a'
  end.

(** *** The regular expression [/system\.adapter\.eusec\.(\d+)/] *)

(** [strip_prefix p s] is what follows [p] in [s], when [s] starts with
    [p]. *)
Fixpoint strip_prefix (p s : string) : option string :=
  match p, s with
  | EmptyString, _ => Some s
  | String a p', String b s' => if Ascii.eqb a b then strip_prefix p' s' else None
  | String _ _, EmptyString => None
  end.

Definition id_prefix : string := "system.adapter.eusec.".

(** A match that starts at the head of [s]: the literal part, then a greedy
    [\d+], whose text is capture group 1. *)
Definition match_here (s : string) : option string :=
  match strip_prefix id_prefix s with
  | Some rest =>
      match take_digits rest with
      | EmptyString => None
      | ds => Some ds
      end
  | None => None
  end.

(** [line.match(re)] without the [g] flag: the leftmost match; the result is
    capture group 1, or [None] for [null]. *)
Fixpoint regex_match (s : string) : option string :=
  match match_here s with
  | Some ds => Some ds
  | None =>
      match s with
      | String _ s' => regex_match s'
      | EmptyString => None
      end
  end.

End Js.

(* ================================================================== *)
(** ** Effects: console, child processes, exceptions and process.exit *)

Module Run.

(** What [execSync] does with a command: it returns the standard output of
    the child, or throws an error, of which the script reads the message. *)
Inductive exec_result : Type :=
| ExecOk (stdout : string)
| ExecFail (message : string).

(** The surroundings of one run.  The answer of a command may depend on the
    commands executed before it. *)
Record Env : Type := {
  version : string;                               (* process.version *)
  shell : list string -> string -> exec_result;   (* child_process.execSync *)
  now : nat -> string                             (* new Date().toISOString() at the k-th log line *)
}.

(** What a run has done so far, oldest first. *)
Record World : Type := {
  console : list string;
  commands : list string
}.

Definition start : World := {| console := []; commands := [] |}.

(** A computation returns, throws, or ends the process with a status. *)
Inductive Outcome (A : Type) : Type :=
| Ret (a : A)
| Throw (message : string)
| Exit (status : Z).
Arguments Ret {A} a.
Arguments Throw {A} message.
Arguments Exit {A} status.

Definition M (A : Type) : Type := World -> Outcome A * World.

Definition ret {A} (a : A) : M A := fun w => (Ret a, w).

Definition bind {A B} (m : M A) (k : A -> M B) : M B :=
  fun w =>
    match m w with
    | (Ret a, w') => k a w'
    | (Throw e, w') => (Throw e, w')
    | (Exit c, w') => (Exit c, w')
    end.

Definition throw {A} (message : string) : M A := fun w => (Throw message, w).

(** [process.exit(status)]: nothing after it runs, and no handler sees it. *)
Definition exit {A} (status : Z) : M A := fun w => (Exit status, w).

(** [try { body } catch (error) { handler }] *)
Definition try_catch {A} (body : M A) (handler : string -> M A) : M A :=
  fun w =>
    match body w with
    | (Throw e, w') => handler e w'
    | r => r
    end.

End Run.

Declare Scope run_scope.
Delimit Scope run_scope with run.
Notation "x <- m ;; k" := (Run.bind m (fun x => k))
  (at level 61, m at next level, right associativity) : run_scope.
Notation "m ;; k" := (Run.bind m (fun _ => k))
  (at level 61, right associativity) : run_scope.

(* ================================================================== *)
(** ** The script *)

Module Script.
Import Js Run.
Local Open Scope run_scope.

Section WithEnv.

Variable env : Env.

(** [execSync(command, { encoding: 'utf-8' })]: the command joins the
    executed commands whether it succeeds or not. *)
Definition execSync (command : string) : M string :=
  fun w =>
    let w' := {| console := console w; commands := commands w ++ [command] |} in
    match shell env (commands w) command with
    | ExecOk output => (Ret output, w')
    | ExecFail message => (Throw message, w')
    end.

(** [function log(message)] *)
Definition log (message : string) : M unit :=
  fun w =>
    let line := "[" ++ now env (List.length (console w)) ++ "] " ++ message in
    (Ret tt, {| console := console w ++ [line]; commands := commands w |}).

(** [function getNodeVersion()] *)
Definition getNodeVersion : M number :=
  let version := version env in
  let majorVersion := parseInt (substring1 (first (split "." version))) in
  log ("Detected Node.js version: " ++ version ++ " (major: "
       ++ toString majorVersion ++ ")") ;;
  ret majorVersion.

(** [function executeCommand(command)] *)
Definition executeCommand (command : string) : M string :=
  try_catch
    (output <- execSync command ;;
     ret (trim output))
    (fun error =>
       log ("Error executing command " ++ String DQ command ++ String DQ ": "
            ++ error) ;;
       throw error).

Definition list_command : string := "iob object list system.adapter.eusec.*".

(** The body of the loop over the lines in [getEusecInstances]: the new
    value of [instances] after one line. *)
Definition scan_line (instances : list number) (line : string) : list number :=
  match regex_match line with
  | Some group1 =>
      let instanceNumber := parseInt group1 in
      if includes instances instanceNumber then instances
      else instances ++ [instanceNumber]
  | None => instances
  end.

(** [for (const line of lines) { ... }] *)
Definition scan_lines (lines : list string) (instances : list number)
  : list number :=
  fold_left scan_line lines instances.

(** [function getEusecInstances()] *)
Definition getEusecInstances : M (list number) :=
  log "Retrieving eusec adapter instances..." ;;
  try_catch
    (output <- executeCommand list_command ;;
     let lines := split LF output in
     let instances := scan_lines lines [] in
     log ("Found " ++ toString (Fin (Z.of_nat (List.length instances)))
          ++ " eusec instance(s): " ++ join ", " instances) ;;
     ret instances)
    (fun error =>
       log ("No eusec instances found or error occurred while listing instances: "
            ++ error) ;;
       ret []).

Definition objectId (instanceNumber : number) : string :=
  "system.adapter.eusec." ++ toString instanceNumber.

Definition set_command (instanceNumber : number) : string :=
  "iob object set " ++ objectId instanceNumber ++ " common.nodeProcessParams=[]".

(** [function fixInstance(instanceNumber)] *)
Definition fixInstance (instanceNumber : number) : M unit :=
  let command := set_command instanceNumber in
  log ("Fixing instance " ++ toString instanceNumber ++ "...") ;;
  log ("Executing: " ++ command) ;;
  try_catch
    (executeCommand command ;;
     log ("Successfully fixed instance " ++ toString instanceNumber))
    (fun error =>
       log ("Failed to fix instance " ++ toString instanceNumber ++ ": " ++ error) ;;
       throw error).

(** The loop of [main] over the instances, from given values of the two
    counters; it returns [(successCount, failCount)]. *)
Fixpoint fix_each (instances : list number) (successCount failCount : Z)
  : M (Z * Z) :=
  match instances with
  | [] => ret (successCount, failCount)
  | instanceNumber :: rest =>
      counts <- try_catch
                  (fixInstance instanceNumber ;;
                   ret (successCount + 1, failCount)%Z)
                  (fun _ => ret (successCount, failCount + 1)%Z) ;;
      fix_each rest (fst counts) (snd counts)
  end.

(** [function main()] *)
Definition main : M unit :=
  log "=== Cleanup CVE Fix Script Started ===" ;;
  nodeVersion <- getNodeVersion ;;
  (if lt nodeVersion (Fin 22) then
     log ("Node.js version " ++ toString nodeVersion
          ++ ".x is less than 22.x - no action needed") ;;
     log "=== Cleanup CVE Fix Script Completed Successfully ===" ;;
     exit 0
   else ret tt) ;;
  log ("Node.js version " ++ toString nodeVersion
       ++ ".x is >= 22.x - proceeding with fix") ;;
  instances <- getEusecInstances ;;
  (if (List.length instances =? 0)%nat then
     log "No eusec instances found - nothing to fix" ;;
     log "=== Cleanup CVE Fix Script Completed Successfully ===" ;;
     exit 0
   else ret tt) ;;
  counts <- fix_each instances 0 0 ;;
  let '(successCount, failCount) := counts in
  log ("Fixed " ++ toString (Fin successCount) ++ " instance(s), "
       ++ toString (Fin failCount) ++ " failure(s)") ;;
  (if (0 <? failCount)%Z then
     log "=== Cleanup CVE Fix Script Completed with Errors ===" ;;
     exit 1
   else ret tt) ;;
  log "=== Cleanup CVE Fix Script Completed Successfully ===" ;;
  exit 0.

(** The number [getNodeVersion] returns. *)
Definition reported_major : number :=
  parseInt (substring1 (first (split "." (version env)))).

(** The array [getEusecInstances] returns when the commands in [history]
    were executed before it is called. *)
Definition discovered (history : list string) : list number :=
  match shell env history list_command with
  | ExecOk output => scan_lines (split LF (trim output)) []
  | ExecFail _ => []
  end.

End WithEnv.

End Script.

(* ================================================================== *)
(** ** Vocabulary of the properties *)

Module Spec.
Import Js Run Script.
Local Open Scope list_scope.

(** [runs m w o cmds]: started in [w], [m] ends with outcome [o] after
    executing exactly the commands [cmds]. *)
Definition runs {A} (m : M A) (w : World) (o : Outcome A) (cmds : list string)
  : Prop :=
  exists w', m w = (o, w') /\ commands w' = commands w ++ cmds.

Fixpoint all_digits (s : string) : bool :=
  match s with
  | String c s' => is_digit c && all_digits s'
  | EmptyString => true
  end.

Definition starts_with_digit (s : string) : bool :=
  match s with
  | String c _ => is_digit c
  | EmptyString => false
  end.

(** [line] holds [system.adapter.eusec.] followed by the digits [ds] right
    after [pre]; [rest] is what follows. *)
Definition Occurs (line pre ds rest : string) : Prop :=
  line = (pre ++ id_prefix ++ ds ++ rest)%string
  /\ ds <> EmptyString /\ all_digits ds = true.

(** [line] contains a substring matching [system.adapter.eusec.<digits>]. *)
Definition Contains_id (line : string) : Prop :=
  exists pre ds rest, Occurs line pre ds rest.

(** The match the regular expression engine reports: the leftmost
    occurrence, with all the digits that follow the literal part. *)
Definition First_match (line pre ds rest : string) : Prop :=
  Occurs line pre ds rest
  /\ starts_with_digit rest = false
  /\ forall pre' ds' rest', Occurs line pre' ds' rest' ->
       (String.length pre <= String.length pre')%nat.

(** The [k]-th mutation command of the loop over [instances] fails, when the
    loop starts after the commands of [history]. *)
Definition mutation_fails (env : Env) (history : list string)
    (instances : list number) (k : nat) : Prop :=
  (k < List.length instances)%nat /\
  exists message,
    shell env (history ++ map set_command (firstn k instances))
              (set_command (nth k instances NaN)) = ExecFail message.

(** How many mutation commands of that loop fail. *)
Fixpoint count_failures (env : Env) (history : list string)
    (instances : list number) : Z :=
  match instances with
  | [] => 0
  | n :: rest =>
      (match shell env history (set_command n) with
       | ExecOk _ => 0
       | ExecFail _ => 1
       end + count_failures env (history ++ [set_command n]) rest)%Z
  end.

(** The part of [process.version] that [getNodeVersion] hands to
    [parseInt]: the first dot-separated segment without its first
    character. *)
Definition major_segment (version : string) : string :=
  substring1 (first (split "." version)).

(** A numeric string: decimal digits and nothing else, at least one. *)
Definition is_numeric (s : string) : bool :=
  match s with
  | EmptyString => false
  | _ => all_digits s
  end.

(** What is left once leading white space and one sign are skipped. *)
Definition after_sign (s : string) : string :=
  match trim_start s with
  | String c r =>
      if Ascii.eqb c "-" || Ascii.eqb c "+" then r else String c r
  | EmptyString => EmptyString
  end.

End Spec.

(* ================================================================== *)
(** ** Sample surroundings *)

Module Sample.
Import Js Run Script.
Local Open Scope list_scope.

Definition stamp : nat -> string := fun _ => "2025-01-01T00:00:00.000Z".

(** Lines of text, separated by line feeds. *)
Definition text (lines : list string) : string :=
  String.concat (String LF EmptyString) lines.

(** A host whose inventory prints [inventory]; the mutation commands in
    [broken] fail, every other command succeeds silently. *)
Definition host (inventory : string) (broken : list string)
  : list string -> string -> exec_result :=
  fun _ command =>
    if String.eqb command list_command then ExecOk inventory
    else if existsb (String.eqb command) broken
         then ExecFail "Command failed"
         else ExecOk "".

(** A host without the [iob] command. *)
Definition no_iob : list string -> string -> exec_result :=
  fun _ _ => ExecFail "iob: not found".

Definition inventory_0_2 : string :=
  text [ "system.adapter.eusec.0 : instance - eusec";
         "system.adapter.eusec.2 : instance - eusec" ].

Definition inventory_noisy : string :=
  text [ "";
         "id                      type      name";
         "system.adapter.eusec.0  instance  eusec";
         "system.adapter.eusec.1  instance  eusec";
         "system.adapter.eusec   (no number)";
         "system.adapter.eusec.00 instance  eusec";
         "system.adapter.eusec.1  instance  eusec";
         "" ].

Definition inventory_two_on_a_line : string :=
  text [ "system.adapter.eusec.0 system.adapter.eusec.1";
         "system.adapter.eusec.2" ].

Definition node20 : Env :=
  {| version := "v20.11.1"; shell := host inventory_0_2 []; now := stamp |}.

Definition node22 : Env :=
  {| version := "v22.3.0"; shell := host inventory_0_2 []; now := stamp |}.

Definition node22_noisy : Env :=
  {| version := "v22.3.0"; shell := host inventory_noisy []; now := stamp |}.

Definition node22_two_on_a_line : Env :=
  {| version := "v22.3.0"; shell := host inventory_two_on_a_line [];
     now := stamp |}.

Definition node22_empty : Env :=
  {| version := "v22.3.0"; shell := host "" []; now := stamp |}.

Definition node22_no_iob : Env :=
  {| version := "v24.0.0"; shell := no_iob; now := stamp |}.

Definition node22_first_broken : Env :=
  {| version := "v22.3.0";
     shell := host inventory_0_2 [set_command (Fin 0)];
     now := stamp |}.

Definition node_unnumbered : Env :=
  {| version := "vnext.0.0"; shell := host inventory_0_2 []; now := stamp |}.

Definition node_2x : Env :=
  {| version := "v2x.0.0"; shell := host inventory_0_2 []; now := stamp |}.

End Sample.

(* ================================================================== *)
(** ** Further vocabulary: transcripts, order of discovery, white space *)

Module Notions.
Import Js Run Script Spec.
Local Open Scope list_scope.

(** The console lines that [log] prints for [messages] when [k] lines were
    printed before. *)
Fixpoint stamped (env : Env) (k : nat) (messages : list string) : list string :=
  match messages with
  | [] => []
  | message :: rest =>
      ("[" ++ now env k ++ "] " ++ message)%string :: stamped env (S k) rest
  end.

(** [says env m w o cmds messages]: started in [w], [m] ends with outcome
    [o] after executing exactly the commands [cmds] and logging exactly
    [messages]. *)
Definition says {A} (env : Env) (m : M A) (w : World) (o : Outcome A)
    (cmds : list string) (messages : list string) : Prop :=
  exists w', m w = (o, w')
             /\ commands w' = commands w ++ cmds
             /\ console w'
                = console w ++ stamped env (List.length (console w)) messages.

(** What [executeCommand] logs when the command fails. *)
Definition error_line (command message : string) : string :=
  ("Error executing command " ++ String DQ command ++ String DQ ": "
   ++ message)%string.

Definition start_banner : string := "=== Cleanup CVE Fix Script Started ===".

Definition success_banner : string :=
  "=== Cleanup CVE Fix Script Completed Successfully ===".

Definition error_banner : string :=
  "=== Cleanup CVE Fix Script Completed with Errors ===".

(** The banner that goes with an exit status. *)
Definition closing (status : Z) : string :=
  if (status =? 0)%Z then success_banner else error_banner.

(** What [fixInstance] logs, after the command was answered by [answer]. *)
Definition fix_messages (n : number) (answer : exec_result) : list string :=
  ("Fixing instance " ++ toString n ++ "...")%string
  :: ("Executing: " ++ set_command n)%string
  :: match answer with
     | ExecOk _ =>
         [("Successfully fixed instance " ++ toString n)%string]
     | ExecFail message =>
         [error_line (set_command n) message;
          ("Failed to fix instance " ++ toString n ++ ": " ++ message)%string]
     end.

(** What [getEusecInstances] logs, after the inventory command was answered
    by [answer]. *)
Definition inventory_messages (answer : exec_result) : list string :=
  "Retrieving eusec adapter instances..."%string
  :: match answer with
     | ExecOk output =>
         let instances := scan_lines (split LF (trim output)) [] in
         [("Found " ++ toString (Fin (Z.of_nat (List.length instances)))
           ++ " eusec instance(s): " ++ join ", " instances)%string]
     | ExecFail message =>
         [error_line list_command message;
          ("No eusec instances found or error occurred while listing instances: "
           ++ message)%string]
     end.

(** What the loop of [main] logs: the lines of [fixInstance], instance
    after instance. *)
Fixpoint loop_messages (env : Env) (history : list string)
    (instances : list number) : list string :=
  match instances with
  | [] => []
  | n :: rest =>
      fix_messages n (shell env history (set_command n))
      ++ loop_messages env (history ++ [set_command n]) rest
  end.

(** The numbers of the first matches of [lines], line after line. *)
Definition line_numbers (lines : list string) : list number :=
  flat_map (fun line => match regex_match line with
                        | Some ds => [parseInt ds]
                        | None => []
                        end) lines.

(** [l] without the later repetitions of its elements. *)
Definition first_occurrences (l : list number) : list number :=
  rev (nodup number_eq_dec (rev l)).

Fixpoint all_space (s : string) : bool :=
  match s with
  | String c s' => is_space c && all_space s'
  | EmptyString => true
  end.

Definition starts_with_space (s : string) : bool :=
  match s with
  | String c _ => is_space c
  | EmptyString => false
  end.

Fixpoint ends_with_space (s : string) : bool :=
  match s with
  | EmptyString => false
  | String c EmptyString => is_space c
  | String _ s' => ends_with_space s'
  end.

Fixpoint contains_char (c : ascii) (s : string) : bool :=
  match s with
  | String c' s' => Ascii.eqb c' c || contains_char c s'
  | EmptyString => false
  end.

(** The value of a decimal numeral, most significant digit first, on top of
    [acc]. *)
Fixpoint uint_value (acc : Z) (d : Decimal.uint) : Z :=
  match d with
  | Decimal.Nil => acc
  | Decimal.D0 l => uint_value (10 * acc + 0) l
  | Decimal.D1 l => uint_value (10 * acc + 1) l
  | Decimal.D2 l => uint_value (10 * acc + 2) l
  | Decimal.D3 l => uint_value (10 * acc + 3) l
  | Decimal.D4 l => uint_value (10 * acc + 4) l
  | Decimal.D5 l => uint_value (10 * acc + 5) l
  | Decimal.D6 l => uint_value (10 * acc + 6) l
  | Decimal.D7 l => uint_value (10 * acc + 7) l
  | Decimal.D8 l => uint_value (10 * acc + 8) l
  | Decimal.D9 l => uint_value (10 * acc + 9) l
  end.

(** An instance number below [2^53]: every such integer is a double. *)
Definition small (n : number) : Prop :=
  exists z, n = Fin z /\ (0 <= z < 2 ^ 53)%Z.

End Notions.

(* ================================================================== *)
(** ** The built-ins on known values *)

Module JsChecks.
Import Js.

Example parseInt_plain : parseInt "22" = Fin 22.
Proof. vm_compute. reflexivity. Qed.

Example parseInt_prefix : parseInt "  -12abc" = Fin (-12).
Proof. vm_compute. reflexivity. Qed.

Example parseInt_nothing : parseInt "abc" = NaN.
Proof. vm_compute. reflexivity. Qed.

Example parseInt_rounds : parseInt "9007199254740993" = Fin 9007199254740992.
Proof. vm_compute. reflexivity. Qed.

Example toString_small : toString (Fin 120) = "120".
Proof. vm_compute. reflexivity. Qed.

Example toString_2_60 : toString (Fin (2 ^ 60)) = "1152921504606847000".
Proof. vm_compute. reflexivity. Qed.

Example toString_1e21 : toString (Fin (10 ^ 21)) = "1e+21".
Proof. vm_compute. reflexivity. Qed.

Example toString_2_70 : toString (Fin (2 ^ 70)) = "1.1805916207174113e+21".
Proof. vm_compute. reflexivity. Qed.

Example split_version : split "." "v22.1.0" = ["v22"; "1"; "0"].
Proof. vm_compute. reflexivity. Qed.

Example split_empty : split "." "" = [""].
Proof. vm_compute. reflexivity. Qed.

Example trim_both_ends : trim (String LF "  a b  ") = "a b".
Proof. vm_compute. reflexivity. Qed.

Example regex_leftmost_greedy :
  regex_match "xx system.adapter.eusec.007 system.adapter.eusec.1" = Some "007".
Proof. vm_compute. reflexivity. Qed.

Example regex_needs_a_digit : regex_match "system.adapter.eusec.x" = None.
Proof. vm_compute. reflexivity. Qed.

End JsChecks.

(* ================================================================== *)
(** ** Reasoning about runs *)

Module RunFacts.
Import Run Spec.
Local Open Scope list_scope.

Lemma runs_ret {A} (a : A) w : runs (ret a) w (Ret a) [].
Proof. exists w. split; [reflexivity | now rewrite app_nil_r]. Qed.

Lemma runs_throw {A} e w : runs (@throw A e) w (Throw e) [].
Proof. exists w. split; [reflexivity | now rewrite app_nil_r]. Qed.

Lemma runs_exit {A} c w : runs (@exit A c) w (Exit c) [].
Proof. exists w. split; [reflexivity | now rewrite app_nil_r]. Qed.

Lemma runs_bind {A B} (m : M A) (k : A -> M B) w a c1 o c2 :
  runs m w (Ret a) c1 ->
  (forall w', commands w' = commands w ++ c1 -> runs (k a) w' o c2) ->
  runs (bind m k) w o (c1 ++ c2).
Proof.
  intros (w1 & Hm & Hc1) Hk.
  destruct (Hk w1 Hc1) as (w2 & Hk2 & Hc2).
  exists w2. unfold bind. rewrite Hm. split; [exact Hk2 |].
  now rewrite Hc2, Hc1, app_assoc.
Qed.

Lemma runs_bind_throw {A B} (m : M A) (k : A -> M B) w e c :
  runs m w (Throw e) c -> runs (bind m k) w (Throw e) c.
Proof.
  intros (w1 & Hm & Hc). exists w1. unfold bind. now rewrite Hm.
Qed.

Lemma runs_bind_exit {A B} (m : M A) (k : A -> M B) w s c :
  runs m w (Exit s) c -> runs (bind m k) w (Exit s) c.
Proof.
  intros (w1 & Hm & Hc). exists w1. unfold bind. now rewrite Hm.
Qed.

Lemma runs_try_ret {A} (m : M A) h w a c :
  runs m w (Ret a) c -> runs (try_catch m h) w (Ret a) c.
Proof.
  intros (w1 & Hm & Hc). exists w1. unfold try_catch. now rewrite Hm.
Qed.

Lemma runs_try_throw {A} (m : M A) h w e c1 o c2 :
  runs m w (Throw e) c1 ->
  (forall w', commands w' = commands w ++ c1 -> runs (h e) w' o c2) ->
  runs (try_catch m h) w o (c1 ++ c2).
Proof.
  intros (w1 & Hm & Hc1) Hh.
  destruct (Hh w1 Hc1) as (w2 & Hh2 & Hc2).
  exists w2. unfold try_catch. rewrite Hm. split; [exact Hh2 |].
  now rewrite Hc2, Hc1, app_assoc.
Qed.

(** A first step that executes nothing. *)
Lemma runs_bind_quiet {A B} (m : M A) (k : A -> M B) w a o c :
  runs m w (Ret a) [] ->
  (forall w', commands w' = commands w -> runs (k a) w' o c) ->
  runs (bind m k) w o c.
Proof.
  intros Hm Hk. change c with ([] ++ c).
  eapply runs_bind; [exact Hm |].
  intros w' Hw'. apply Hk. now rewrite Hw', app_nil_r.
Qed.

(** A computation has one outcome and one list of commands. *)
Lemma runs_deterministic {A} (m : M A) w o1 c1 o2 c2 :
  runs m w o1 c1 -> runs m w o2 c2 -> o1 = o2 /\ c1 = c2.
Proof.
  intros (w1 & H1 & E1) (w2 & H2 & E2).
  rewrite H1 in H2. inversion H2; subst. split; [reflexivity |].
  rewrite E1 in E2. now apply app_inv_head in E2.
Qed.

End RunFacts.

(* ================================================================== *)
(** ** What each function of the script does *)

Module ScriptFacts.
Import Js Run Script Spec RunFacts.
Local Open Scope list_scope.

Section WithEnv.

Variable env : Env.

Lemma log_runs message w : runs (log env message) w (Ret tt) [].
Proof.
  unfold runs, log. eexists. split; [reflexivity |].
  cbn [commands]. now rewrite app_nil_r.
Qed.

(** A log line, then the rest. *)
Lemma runs_after_log {B} message (k : M B) w o c :
  (forall w', commands w' = commands w -> runs k w' o c) ->
  runs (bind (log env message) (fun _ => k)) w o c.
Proof.
  intros Hk. change c with ([] ++ c).
  eapply runs_bind; [apply log_runs |].
  intros w' Hw'. apply Hk. now rewrite Hw', app_nil_r.
Qed.

Lemma execSync_ok command output w :
  shell env (commands w) command = ExecOk output ->
  runs (execSync env command) w (Ret output) [command].
Proof.
  intros H. unfold runs, execSync. rewrite H. eexists. split; reflexivity.
Qed.

Lemma execSync_fail command message w :
  shell env (commands w) command = ExecFail message ->
  runs (execSync env command) w (Throw message) [command].
Proof.
  intros H. unfold runs, execSync. rewrite H. eexists. split; reflexivity.
Qed.

Lemma executeCommand_ok command output w :
  shell env (commands w) command = ExecOk output ->
  runs (executeCommand env command) w (Ret (trim output)) [command].
Proof.
  intros H. unfold executeCommand. apply runs_try_ret.
  rewrite <- (app_nil_r [command]).
  eapply runs_bind; [apply execSync_ok, H |].
  intros; apply runs_ret.
Qed.

Lemma executeCommand_fail command message w :
  shell env (commands w) command = ExecFail message ->
  runs (executeCommand env command) w (Throw message) [command].
Proof.
  intros H. unfold executeCommand.
  rewrite <- (app_nil_r [command]).
  eapply runs_try_throw.
  - apply runs_bind_throw, execSync_fail, H.
  - intros w' _. apply runs_after_log. intros; apply runs_throw.
Qed.

Lemma getNodeVersion_runs w :
  runs (getNodeVersion env) w (Ret (reported_major env)) [].
Proof.
  unfold getNodeVersion. apply runs_after_log. intros; apply runs_ret.
Qed.

(** [getEusecInstances] always returns, after the one inventory command. *)
Lemma getEusecInstances_runs w :
  runs (getEusecInstances env) w (Ret (discovered env (commands w)))
       [list_command].
Proof.
  unfold getEusecInstances, discovered.
  apply runs_after_log. intros w1 E1. rewrite <- E1.
  destruct (shell env (commands w1) list_command) as [output | message] eqn:H.
  - apply runs_try_ret.
    rewrite <- (app_nil_r [list_command]).
    eapply runs_bind; [apply executeCommand_ok, H |].
    intros w2 _. cbv zeta. apply runs_after_log. intros; apply runs_ret.
  - rewrite <- (app_nil_r [list_command]).
    eapply runs_try_throw.
    + apply runs_bind_throw, executeCommand_fail, H.
    + intros w2 _. apply runs_after_log. intros; apply runs_ret.
Qed.

Lemma fixInstance_ok n output w :
  shell env (commands w) (set_command n) = ExecOk output ->
  runs (fixInstance env n) w (Ret tt) [set_command n].
Proof.
  intros H. unfold fixInstance. cbv zeta.
  apply runs_after_log. intros w1 E1.
  apply runs_after_log. intros w2 E2.
  apply runs_try_ret.
  rewrite <- (app_nil_r [set_command n]).
  eapply runs_bind.
  - apply executeCommand_ok with (output := output). now rewrite E2, E1.
  - intros w3 _. apply log_runs.
Qed.

Lemma fixInstance_fail n message w :
  shell env (commands w) (set_command n) = ExecFail message ->
  runs (fixInstance env n) w (Throw message) [set_command n].
Proof.
  intros H. unfold fixInstance. cbv zeta.
  apply runs_after_log. intros w1 E1.
  apply runs_after_log. intros w2 E2.
  rewrite <- (app_nil_r [set_command n]).
  eapply runs_try_throw.
  - apply runs_bind_throw, executeCommand_fail with (message := message).
    now rewrite E2, E1.
  - intros w3 _. apply runs_after_log. intros; apply runs_throw.
Qed.

(** One turn of the loop of [main]. *)
Lemma fix_turn_runs n s f w :
  runs (try_catch (bind (fixInstance env n) (fun _ => ret (s + 1, f)%Z))
                  (fun _ => ret (s, f + 1)%Z))
       w
       (Ret (match shell env (commands w) (set_command n) with
             | ExecOk _ => (s + 1, f)%Z
             | ExecFail _ => (s, f + 1)%Z
             end))
       [set_command n].
Proof.
  destruct (shell env (commands w) (set_command n)) as [output | message] eqn:H.
  - apply runs_try_ret.
    rewrite <- (app_nil_r [set_command n]).
    eapply runs_bind; [eapply fixInstance_ok, H |].
    intros; apply runs_ret.
  - rewrite <- (app_nil_r [set_command n]).
    eapply runs_try_throw.
    + eapply runs_bind_throw, fixInstance_fail, H.
    + intros; apply runs_ret.
Qed.

(** The loop attempts every instance, in order, and counts each once. *)
Lemma fix_each_runs instances : forall s f w,
  runs (fix_each env instances s f) w
       (Ret (s + Z.of_nat (List.length instances)
               - count_failures env (commands w) instances,
             f + count_failures env (commands w) instances)%Z)
       (map set_command instances).
Proof.
  induction instances as [| n rest IH]; intros s f w.
  - cbn [fix_each count_failures List.length map].
    replace (s + Z.of_nat 0 - 0)%Z with s by lia.
    replace (f + 0)%Z with f by lia.
    apply runs_ret.
  - cbn [fix_each count_failures List.length map].
    change (set_command n :: map set_command rest)
      with ([set_command n] ++ map set_command rest).
    eapply runs_bind; [apply fix_turn_runs |].
    intros w1 E1.
    destruct (shell env (commands w) (set_command n)); cbn [fst snd];
      rewrite <- E1.
    + replace (s + Z.of_nat (S (List.length rest))
               - (0 + count_failures env (commands w1) rest))%Z
        with (s + 1 + Z.of_nat (List.length rest)
              - count_failures env (commands w1) rest)%Z by lia.
      replace (f + (0 + count_failures env (commands w1) rest))%Z
        with (f + count_failures env (commands w1) rest)%Z by lia.
      apply IH.
    + replace (s + Z.of_nat (S (List.length rest))
               - (1 + count_failures env (commands w1) rest))%Z
        with (s + Z.of_nat (List.length rest)
              - count_failures env (commands w1) rest)%Z by lia.
      replace (f + (1 + count_failures env (commands w1) rest))%Z
        with (f + 1 + count_failures env (commands w1) rest)%Z by lia.
      apply IH.
Qed.

Lemma count_failures_bounds instances : forall history,
  (0 <= count_failures env history instances <= Z.of_nat (List.length instances))%Z.
Proof.
  induction instances as [| n rest IH]; intros history;
    cbn [count_failures List.length].
  - lia.
  - specialize (IH (history ++ [set_command n])).
    destruct (shell env history (set_command n)); lia.
Qed.

(** The count is positive exactly when some mutation command fails. *)
Lemma count_failures_pos instances : forall history,
  (0 < count_failures env history instances)%Z <->
  exists k, mutation_fails env history instances k.
Proof.
  induction instances as [| n rest IH]; intros history;
    cbn [count_failures].
  - split; [lia |]. intros (k & Hk & _). cbn in Hk. lia.
  - pose proof (count_failures_bounds rest (history ++ [set_command n])) as B.
    split.
    + intros Hpos.
      destruct (shell env history (set_command n)) as [o | m] eqn:H.
      * assert (Hr : (0 < count_failures env (history ++ [set_command n]) rest)%Z)
          by lia.
        apply IH in Hr. destruct Hr as (k & Hk & msg & Hf).
        exists (S k). split; [cbn; lia |].
        exists msg. cbn [firstn map nth].
        now rewrite <- app_assoc in Hf.
      * exists 0%nat. split; [cbn; lia |].
        exists m. cbn [firstn map nth]. now rewrite app_nil_r.
    + intros (k & Hk & msg & Hf).
      destruct k as [| k].
      * cbn [firstn map nth] in Hf. rewrite app_nil_r in Hf.
        rewrite Hf. lia.
      * cbn [firstn map nth] in Hf.
        assert (Hr : (0 < count_failures env (history ++ [set_command n]) rest)%Z).
        { apply IH. exists k. split; [cbn in Hk; lia |].
          exists msg. now rewrite <- app_assoc. }
        destruct (shell env history (set_command n)); lia.
Qed.

(** [main] on a platform older than 22. *)
Lemma main_early w :
  lt (reported_major env) (Fin 22) = true ->
  runs (main env) w (Exit 0) [].
Proof.
  intros Hlt. unfold main.
  apply runs_after_log. intros w1 E1.
  eapply runs_bind_quiet; [apply getNodeVersion_runs |]. intros w2 E2.
  rewrite Hlt.
  apply runs_bind_exit.
  apply runs_after_log. intros w3 E3.
  apply runs_after_log. intros w4 E4.
  apply runs_exit.
Qed.

(** [main] on any other platform: the inventory command, then one mutation
    command per discovered instance; the status tells whether one failed. *)
Lemma main_late w :
  lt (reported_major env) (Fin 22) = false ->
  runs (main env) w
       (Exit (if (0 <? count_failures env (commands w ++ [list_command])
                          (discovered env (commands w)))%Z
              then 1 else 0)%Z)
       (list_command :: map set_command (discovered env (commands w))).
Proof.
  intros Hlt. unfold main.
  apply runs_after_log. intros w1 E1.
  eapply runs_bind_quiet; [apply getNodeVersion_runs |]. intros w2 E2.
  rewrite Hlt.
  eapply runs_bind_quiet; [apply runs_ret |]. intros w3 E3.
  apply runs_after_log. intros w4 E4.
  assert (E : commands w4 = commands w) by congruence.
  change (list_command :: map set_command (discovered env (commands w)))
    with ([list_command] ++ map set_command (discovered env (commands w))).
  eapply runs_bind; [apply getEusecInstances_runs |]. intros w5 E5.
  rewrite E in *. clear dependent w4. clear dependent w3.
  clear dependent w2. clear dependent w1.
  destruct (discovered env (commands w)) as [| n rest] eqn:D.
  - cbn [List.length Nat.eqb map count_failures Z.ltb Z.compare].
    apply runs_bind_exit.
    apply runs_after_log. intros w6 E6.
    apply runs_after_log. intros w7 E7.
    apply runs_exit.
  - cbn [List.length Nat.eqb].
    eapply runs_bind_quiet; [apply runs_ret |]. intros w6 E6.
    rewrite <- (app_nil_r (map set_command (n :: rest))).
    eapply runs_bind; [apply fix_each_runs |]. intros w7 E7.
    cbv beta iota.
    apply runs_after_log. intros w8 E8.
    replace (commands w6) with (commands w ++ [list_command]) by congruence.
    replace (0 + count_failures env (commands w ++ [list_command]) (n :: rest))%Z
      with (count_failures env (commands w ++ [list_command]) (n :: rest)) by lia.
    destruct (0 <? count_failures env (commands w ++ [list_command]) (n :: rest))%Z.
    + apply runs_bind_exit.
      apply runs_after_log. intros w9 E9. apply runs_exit.
    + eapply runs_bind_quiet; [apply runs_ret |]. intros w9 E9.
      apply runs_after_log. intros w10 E10. apply runs_exit.
Qed.

(** [>=] holds only where [<] fails. *)
Lemma ge_not_lt a b : ge a b = true -> lt a b = false.
Proof.
  destruct a, b; cbn; try discriminate; try reflexivity;
    intros H; now apply negb_true_iff in H.
Qed.

End WithEnv.

End ScriptFacts.

(* ================================================================== *)
(** ** The regular expression finds the leftmost identifier *)

Module RegexFacts.
Import Js Spec.

Lemma strip_prefix_app p r : strip_prefix p (p ++ r) = Some r.
Proof.
  induction p as [| a p IH]; cbn; [reflexivity |].
  now rewrite Ascii.eqb_refl.
Qed.

Lemma strip_prefix_inv p : forall s r,
  strip_prefix p s = Some r -> s = p ++ r.
Proof.
  induction p as [| a p IH]; intros s r H; cbn in H.
  - now inversion H.
  - destruct s as [| b s]; [discriminate |].
    destruct (Ascii.eqb a b) eqn:E; [| discriminate].
    apply Ascii.eqb_eq in E. subst b. cbn. f_equal. now apply IH.
Qed.

Lemma take_digits_inv s :
  exists rest, s = take_digits s ++ rest
               /\ all_digits (take_digits s) = true
               /\ starts_with_digit rest = false.
Proof.
  induction s as [| c s (rest & E & D & R)]; cbn [take_digits].
  - exists EmptyString. now cbn.
  - destruct (is_digit c) eqn:Hc.
    + exists rest. cbn [append all_digits]. rewrite Hc, D.
      repeat split; try assumption. now rewrite <- E.
    + exists (String c s). cbn [append all_digits starts_with_digit].
      now rewrite Hc.
Qed.

Lemma take_digits_app ds : forall rest,
  all_digits ds = true -> starts_with_digit rest = false ->
  take_digits (ds ++ rest) = ds.
Proof.
  induction ds as [| c ds IH]; intros rest D R;
    cbn [append all_digits take_digits] in *.
  - destruct rest as [| c r]; [reflexivity |].
    cbn [starts_with_digit take_digits] in *. now rewrite R.
  - apply andb_true_iff in D. destruct D as [Hc D].
    rewrite Hc. f_equal. now apply IH.
Qed.

(** Digits at the head are taken even when more digits follow. *)
Lemma take_digits_nonempty ds rest :
  ds <> EmptyString -> all_digits ds = true ->
  take_digits (ds ++ rest) <> EmptyString.
Proof.
  destruct ds as [| c ds]; [congruence |].
  intros _ D. cbn [append all_digits take_digits] in *.
  apply andb_true_iff in D. destruct D as [Hc _].
  now rewrite Hc.
Qed.

Lemma match_here_inv s ds :
  match_here s = Some ds ->
  exists rest, Occurs s EmptyString ds rest /\ starts_with_digit rest = false.
Proof.
  unfold match_here. intros H.
  destruct (strip_prefix id_prefix s) as [r |] eqn:P; [| discriminate].
  apply strip_prefix_inv in P.
  destruct (take_digits_inv r) as (rest & E & D & R).
  destruct (take_digits r) as [| c t] eqn:T; [discriminate |].
  inversion H; subst ds. exists rest. split; [| exact R].
  unfold Occurs. repeat split; [| discriminate | exact D].
  change (s = id_prefix ++ (String c t ++ rest)). now rewrite <- E.
Qed.

Lemma match_here_first s ds rest :
  Occurs s EmptyString ds rest -> starts_with_digit rest = false ->
  match_here s = Some ds.
Proof.
  intros (E & N & D) R. cbn [append] in E. subst s.
  unfold match_here. rewrite strip_prefix_app, (take_digits_app ds rest D R).
  destruct ds; [congruence | reflexivity].
Qed.

Lemma match_here_some s ds rest :
  Occurs s EmptyString ds rest -> exists ds', match_here s = Some ds'.
Proof.
  intros (E & N & D). cbn [append] in E. subst s.
  unfold match_here. rewrite strip_prefix_app.
  pose proof (take_digits_nonempty ds rest N D) as T.
  destruct (take_digits (ds ++ rest)); [congruence | eauto].
Qed.

(** An occurrence one character further in. *)
Lemma Occurs_cons c s pre ds rest :
  Occurs (String c s) (String c pre) ds rest <-> Occurs s pre ds rest.
Proof.
  unfold Occurs. cbn [append]. split; intros (E & N & D); repeat split; auto.
  - now inversion E.
  - now f_equal.
Qed.

(** An occurrence that does not start the line starts later in it. *)
Lemma Occurs_later c s pre ds rest :
  match_here (String c s) = None ->
  Occurs (String c s) pre ds rest ->
  exists pre', pre = String c pre' /\ Occurs s pre' ds rest.
Proof.
  intros Hnone Hocc.
  destruct pre as [| c' pre'].
  - destruct (match_here_some _ _ _ Hocc) as (ds' & H). congruence.
  - assert (c' = c)
      by (destruct Hocc as (E & _); cbn [append] in E; congruence).
    subst c'.
    exists pre'. split; [reflexivity |].
    exact (proj1 (Occurs_cons _ _ _ _ _) Hocc).
Qed.

Lemma no_occurrence_in_empty pre ds rest : ~ Occurs EmptyString pre ds rest.
Proof.
  intros (E & _). destruct pre; discriminate E.
Qed.

(** [match] returns the first match of the line... *)
Lemma regex_match_inv s : forall ds,
  regex_match s = Some ds -> exists pre rest, First_match s pre ds rest.
Proof.
  induction s as [| c s IH]; intros ds H.
  - cbn in H. discriminate.
  - cbn [regex_match] in H.
    destruct (match_here (String c s)) as [ds0 |] eqn:M.
    + inversion H; subst ds0.
      destruct (match_here_inv _ _ M) as (rest & O & R).
      exists EmptyString, rest. repeat split; try apply O; [exact R |].
      intros; cbn; lia.
    + destruct (IH ds H) as (pre & rest & O & R & L).
      exists (String c pre), rest.
      split; [exact (proj2 (Occurs_cons _ _ _ _ _) O) |].
      split; [exact R |].
      intros pre' ds' rest' O'.
      destruct (Occurs_later _ _ _ _ _ M O') as (p & -> & O'').
      cbn. apply le_n_S. eapply L, O''.
Qed.

(** ... and whatever the first match is, [match] returns it. *)
Lemma regex_match_first s : forall pre ds rest,
  First_match s pre ds rest -> regex_match s = Some ds.
Proof.
  induction s as [| c s IH]; intros pre ds rest (O & R & L).
  - now apply no_occurrence_in_empty in O.
  - cbn [regex_match].
    destruct (match_here (String c s)) as [ds0 |] eqn:M.
    + destruct (match_here_inv _ _ M) as (rest0 & O0 & R0).
      specialize (L _ _ _ O0). cbn in L.
      destruct pre; [| cbn in L; lia].
      rewrite (match_here_first _ _ _ O R) in M. now symmetry.
    + destruct (Occurs_later _ _ _ _ _ M O) as (p & -> & O').
      apply (IH p ds rest). split; [exact O' |]. split; [exact R |].
      intros pre' ds' rest' O''.
      specialize (L _ _ _ (proj2 (Occurs_cons c _ _ _ _) O'')).
      cbn in L. lia.
Qed.

(** [match] returns [null] exactly on the lines without an identifier. *)
Lemma regex_match_none s : regex_match s = None <-> ~ Contains_id s.
Proof.
  split.
  - induction s as [| c s IH]; intros H (pre & ds & rest & O).
    + now apply no_occurrence_in_empty in O.
    + cbn [regex_match] in H.
      destruct (match_here (String c s)) eqn:M; [discriminate |].
      destruct (Occurs_later _ _ _ _ _ M O) as (p & -> & O').
      apply (IH H). now exists p, ds, rest.
  - intros H. destruct (regex_match s) as [ds |] eqn:M; [| reflexivity].
    destruct (regex_match_inv _ _ M) as (pre & rest & O & _).
    exfalso. apply H. now exists pre, ds, rest.
Qed.

End RegexFacts.

(* ================================================================== *)
(** ** The loop over the lines of the inventory *)

Module ScanFacts.
Import Js Script Spec RegexFacts.
Local Open Scope list_scope.

Lemma includes_In a x : includes a x = true <-> In x a.
Proof.
  induction a as [| y a IH]; cbn.
  - split; [discriminate | tauto].
  - destruct (number_eq_dec y x) as [-> | N].
    + split; auto.
    + rewrite IH. split; [auto | intros [E | H]; [congruence | exact H]].
Qed.

Lemma includes_not_In a x : includes a x = false <-> ~ In x a.
Proof.
  rewrite <- includes_In. destruct (includes a x); split; congruence.
Qed.


Lemma scan_line_skip instances line :
  ~ Contains_id line -> scan_line instances line = instances.
Proof.
  intros H. apply regex_match_none in H. unfold scan_line. now rewrite H.
Qed.

Lemma NoDup_push {A} (a : list A) x :
  NoDup a -> ~ In x a -> NoDup (a ++ [x]).
Proof.
  induction a as [| y a IH]; intros H N; cbn.
  - constructor; [tauto | constructor].
  - inversion H as [| ? ? Hy Ha]; subst.
    constructor.
    + rewrite in_app_iff. cbn. intros [I | [E | []]]; [tauto |].
      apply N. now left.
    + apply IH; [exact Ha |]. intros I. apply N. now right.
Qed.

Lemma scan_line_NoDup instances line :
  NoDup instances -> NoDup (scan_line instances line).
Proof.
  intros H. unfold scan_line.
  destruct (regex_match line) as [ds |]; [| exact H].
  destruct (includes instances (parseInt ds)) eqn:I; [exact H |].
  apply includes_not_In in I. now apply NoDup_push.
Qed.

Lemma scan_line_In instances line n :
  In n (scan_line instances line) <->
  In n instances
  \/ exists ds, regex_match line = Some ds /\ n = parseInt ds.
Proof.
  unfold scan_line. destruct (regex_match line) as [ds |] eqn:M.
  - destruct (includes instances (parseInt ds)) eqn:I.
    + apply includes_In in I. split; [auto |].
      intros [H | (ds' & E & ->)]; [exact H |]. now inversion E; subst.
    + rewrite in_app_iff. cbn. split.
      * intros [H | [<- | []]]; [auto |]. right. now exists ds.
      * intros [H | (ds' & E & ->)]; [auto |]. inversion E; subst. auto.
  - split; [auto |]. intros [H | (ds & E & _)]; [exact H | discriminate].
Qed.


Lemma scan_lines_NoDup lines : forall instances,
  NoDup instances -> NoDup (scan_lines lines instances).
Proof.
  induction lines as [| line lines IH]; intros instances H; cbn.
  - exact H.
  - apply IH, scan_line_NoDup, H.
Qed.

Lemma scan_lines_In lines n : forall instances,
  In n (scan_lines lines instances) <->
  In n instances
  \/ exists line ds, In line lines /\ regex_match line = Some ds
                     /\ n = parseInt ds.
Proof.
  induction lines as [| line lines IH]; intros instances; cbn.
  - split; [auto |]. intros [H | (l & ds & [] & _)]. exact H.
  - unfold scan_lines in IH. rewrite IH, scan_line_In. split.
    + intros [[H | (ds & M & E)] | (l & ds & I & M & E)].
      * auto.
      * right. exists line, ds. auto.
      * right. exists l, ds. auto.
    + intros [H | (l & ds & [<- | I] & M & E)].
      * auto.
      * left. right. now exists ds.
      * right. now exists l, ds.
Qed.


(** Lines without an identifier can be left out. *)
Lemma scan_lines_skip before line after instances :
  ~ Contains_id line ->
  scan_lines (before ++ line :: after) instances
  = scan_lines (before ++ after) instances.
Proof.
  intros H. unfold scan_lines. rewrite !fold_left_app. cbn.
  now rewrite scan_line_skip.
Qed.

End ScanFacts.

(* ================================================================== *)
(** ** When parseInt gives NaN *)

Module ParseFacts.
Import Js Spec.

Lemma to_double_not_NaN z : to_double z <> NaN.
Proof.
  unfold to_double.
  destruct (2 ^ 1024 <=? round_nat (Z.abs z))%Z; [| discriminate].
  destruct (z <? 0)%Z; discriminate.
Qed.

Lemma take_digits_empty s :
  take_digits s = EmptyString <-> starts_with_digit s = false.
Proof.
  destruct s as [| c s]; cbn [take_digits starts_with_digit].
  - tauto.
  - destruct (is_digit c); split; congruence.
Qed.

(** NaN comes out exactly when no digit follows the white space and the
    sign. *)
Lemma parseInt_NaN s :
  parseInt s = NaN <-> starts_with_digit (after_sign s) = false.
Proof.
  unfold parseInt, after_sign.
  destruct (trim_start s) as [| c r].
  - cbn. tauto.
  - destruct (Ascii.eqb c "-"), (Ascii.eqb c "+"); cbn [orb];
      rewrite <- take_digits_empty;
      match goal with
      | |- context [take_digits ?b] => destruct (take_digits b)
      end;
      (split; [reflexivity || (intros H; now apply to_double_not_NaN in H)
              | reflexivity || discriminate]).
Qed.

End ParseFacts.

(* ================================================================== *)
(** ** Digits, decimals and doubles *)

Module NumberFacts.
Import Js Spec Notions RegexFacts ParseFacts.

(** What a digit is not. *)
Lemma digit_char c :
  is_digit c = true ->
  is_space c = false
  /\ Ascii.eqb c "-" = false /\ Ascii.eqb c "+" = false
  /\ Ascii.eqb c "." = false
  /\ (0 <= digit_value c <= 9)%Z.
Proof.
  destruct c as [[] [] [] [] [] [] [] []]; vm_compute; intros H;
    try discriminate H; repeat split; congruence.
Qed.

Lemma append_empty_r s : (s ++ "")%string = s.
Proof. induction s as [| c s IH]; cbn; [reflexivity | now rewrite IH]. Qed.

Lemma append_assoc a b c : ((a ++ b) ++ c)%string = (a ++ b ++ c)%string.
Proof. induction a as [| x a IH]; cbn; [reflexivity | now rewrite IH]. Qed.

Lemma append_inv_head a : forall b c,
  (a ++ b)%string = (a ++ c)%string -> b = c.
Proof.
  induction a as [| x a IH]; cbn; intros b c H; [exact H |].
  apply IH. now inversion H.
Qed.

Lemma digits_value_nonneg s : forall acc,
  all_digits s = true -> (0 <= acc)%Z -> (acc <= digits_value acc s)%Z.
Proof.
  induction s as [| c s IH]; intros acc D A; cbn [digits_value all_digits] in *.
  - lia.
  - apply andb_true_iff in D. destruct D as [Hc D].
    destruct (digit_char c Hc) as (_ & _ & _ & _ & V).
    specialize (IH (10 * acc + digit_value c)%Z D). lia.
Qed.

(** How [parseInt] reads digits followed by something that is no digit. *)
Lemma parseInt_digits ds rest :
  ds <> EmptyString -> all_digits ds = true ->
  starts_with_digit rest = false ->
  parseInt (ds ++ rest) = to_double (digits_value 0 ds).
Proof.
  intros N D R. unfold parseInt.
  destruct ds as [| c ds]; [congruence |].
  cbn [append trim_start all_digits] in *.
  apply andb_true_iff in D. destruct D as [Hc D].
  destruct (digit_char c Hc) as (Sp & Mi & Pl & _ & _).
  rewrite Sp, Mi, Pl.
  change (String c (ds ++ rest)) with (String c ds ++ rest)%string.
  rewrite take_digits_app; [reflexivity | | exact R].
  cbn [all_digits]. now rewrite Hc, D.
Qed.

Lemma parseInt_all_digits ds :
  ds <> EmptyString -> all_digits ds = true ->
  parseInt ds = to_double (digits_value 0 ds).
Proof.
  intros N D. rewrite <- (append_empty_r ds) at 1.
  now apply parseInt_digits.
Qed.

Lemma round_nat_nonneg n : (0 <= n)%Z -> (0 <= round_nat n)%Z.
Proof.
  intros H. unfold round_nat.
  destruct (n <? 2 ^ 53)%Z; [exact H |].
  apply Z.shiftl_nonneg.
  assert (0 <= Z.shiftr n (Z.log2 n - 52))%Z by now apply Z.shiftr_nonneg.
  destruct (_ || _); lia.
Qed.

(** A non-negative integer becomes a non-negative number or infinity. *)
Lemma to_double_nonneg z :
  (0 <= z)%Z ->
  to_double z = PosInf \/ exists v, to_double z = Fin v /\ (0 <= v)%Z.
Proof.
  intros H. unfold to_double.
  pose proof (round_nat_nonneg (Z.abs z) (Z.abs_nonneg z)) as R.
  destruct (2 ^ 1024 <=? round_nat (Z.abs z))%Z.
  - left. destruct (z <? 0)%Z eqn:L; [| reflexivity].
    apply Z.ltb_lt in L. lia.
  - right. eexists. split; [reflexivity |].
    apply Z.mul_nonneg_nonneg; [| exact R].
    destruct z; cbn; lia.
Qed.

Lemma to_double_small z : (0 <= z < 2 ^ 53)%Z -> to_double z = Fin z.
Proof.
  intros [L U]. unfold to_double, round_nat.
  rewrite (Z.abs_eq z L).
  destruct (z <? 2 ^ 53)%Z eqn:B; [| apply Z.ltb_ge in B; lia].
  destruct (2 ^ 1024 <=? z)%Z eqn:O.
  - apply Z.leb_le in O.
    assert (2 ^ 53 <= 2 ^ 1024)%Z by (apply Z.pow_le_mono_r; lia). lia.
  - f_equal. destruct z; cbn; lia.
Qed.

(** Rounding never takes a big integer below [2^53]. *)
Lemma round_nat_large n : (2 ^ 53 <= n)%Z -> (2 ^ 53 <= round_nat n)%Z.
Proof.
  intros H. unfold round_nat.
  destruct (n <? 2 ^ 53)%Z eqn:B; [apply Z.ltb_lt in B; lia |].
  assert (L : (53 <= Z.log2 n)%Z).
  { rewrite <- (Z.log2_pow2 53) by lia. now apply Z.log2_le_mono. }
  set (e := (Z.log2 n - 52)%Z). assert (He : (1 <= e)%Z) by (unfold e; lia).
  assert (Hn : (2 ^ 52 * 2 ^ e <= n)%Z).
  { rewrite <- Z.pow_add_r by lia.
    replace (52 + e)%Z with (Z.log2 n) by (unfold e; lia).
    apply Z.log2_spec. lia. }
  assert (Hp : (2 ^ 1 <= 2 ^ e)%Z) by (apply Z.pow_le_mono_r; lia).
  assert (Hq : (2 ^ 52 <= Z.shiftr n e)%Z).
  { rewrite Z.shiftr_div_pow2 by lia.
    apply Z.div_le_lower_bound; [lia |]. now rewrite Z.mul_comm. }
  rewrite Z.shiftl_mul_pow2 by lia.
  change (2 ^ 53)%Z with (2 ^ 52 * 2 ^ 1)%Z.
  apply Z.mul_le_mono_nonneg; try lia.
  destruct (_ || _); lia.
Qed.

(** Only [x] itself rounds to a small positive [x]. *)
Lemma to_double_is_small v x :
  (0 < x < 2 ^ 53)%Z -> to_double v = Fin x -> v = x.
Proof.
  intros [L U] H. unfold to_double in H.
  destruct (2 ^ 1024 <=? round_nat (Z.abs v))%Z.
  - destruct (v <? 0)%Z; discriminate H.
  - injection H as E.
    pose proof (round_nat_nonneg (Z.abs v) (Z.abs_nonneg v)) as R.
    destruct (Z.lt_trichotomy v 0) as [Neg | [Zero | Pos]].
    + rewrite Z.sgn_neg in E by exact Neg. lia.
    + subst v. cbn in E. lia.
    + rewrite Z.sgn_pos in E by exact Pos.
      rewrite Z.abs_eq in E by lia.
      destruct (Z.lt_ge_cases v (2 ^ 53)) as [S | B].
      * unfold round_nat in E. apply Z.ltb_lt in S. rewrite S in E. lia.
      * apply round_nat_large in B. lia.
Qed.

Lemma shortest_at_small x k v :
  (0 < x < 2 ^ 53)%Z -> shortest_at x k = Some v -> v = x.
Proof.
  intros Hx. unfold shortest_at. cbv zeta.
  rewrite (to_double_small x) by lia.
  set (p := (10 ^ (ndigits x - k))%Z).
  destruct (number_eq_dec (to_double (x / p * p)) (Fin x)) as [A | A];
    destruct (number_eq_dec (to_double (x / p * p + p)) (Fin x)) as [B | B];
    try (apply (to_double_is_small _ _ Hx) in A);
    try (apply (to_double_is_small _ _ Hx) in B);
    repeat match goal with
           | |- context [if ?c then _ else _] => destruct c
           end;
    intros H; inversion H; subst; lia.
Qed.

Lemma shortest_small x : (0 < x < 2 ^ 53)%Z -> shortest x = x.
Proof.
  intros Hx. unfold shortest.
  generalize (Z.to_nat (ndigits x)) as fuel. generalize 1%Z as k.
  intros k fuel. revert k.
  induction fuel as [| fuel IH]; intros k; cbn [shortest_from].
  - reflexivity.
  - destruct (shortest_at x k) as [v |] eqn:S; [| apply IH].
    eapply shortest_at_small; eassumption.
Qed.

(** *** The decimal numeral of a positive integer *)

Lemma decimal_pos p :
  decimal (Zpos p) = NilEmpty.string_of_uint (Pos.to_uint p).
Proof.
  unfold decimal. cbn [Z.to_int NilZero.string_of_int].
  pose proof (DecimalPos.Unsigned.to_uint_nonnil p) as N.
  unfold NilZero.string_of_uint. now destruct (Pos.to_uint p).
Qed.

Lemma numeral_all_digits d : all_digits (NilEmpty.string_of_uint d) = true.
Proof. induction d; cbn [NilEmpty.string_of_uint all_digits]; auto. Qed.

Lemma numeral_value d : forall acc,
  digits_value acc (NilEmpty.string_of_uint d) = uint_value acc d.
Proof.
  induction d; intros acc;
    cbn [NilEmpty.string_of_uint digits_value uint_value];
    try reflexivity; rewrite IHd; reflexivity.
Qed.

Lemma of_uint_acc_value d : forall acc,
  Zpos (Pos.of_uint_acc d acc) = uint_value (Zpos acc) d.
Proof.
  induction d; intros acc; cbn [Pos.of_uint_acc uint_value];
    try reflexivity; rewrite IHd; f_equal; lia.
Qed.

Lemma of_uint_value d : Z.of_N (Pos.of_uint d) = uint_value 0 d.
Proof.
  induction d; cbn [Pos.of_uint uint_value]; try reflexivity;
    try exact IHd; cbn [Z.of_N]; rewrite of_uint_acc_value; reflexivity.
Qed.

Lemma decimal_value p : digits_value 0 (decimal (Zpos p)) = Zpos p.
Proof.
  rewrite decimal_pos, numeral_value, <- of_uint_value.
  now rewrite DecimalPos.Unsigned.of_to.
Qed.

(** The numeral of a positive integer does not begin with 0. *)
Lemma to_uint_head p l : Pos.to_uint p <> Decimal.D0 l.
Proof.
  intros E.
  assert (U : Decimal.unorm (Pos.to_uint p) = Pos.to_uint p).
  { rewrite <- DecimalPos.Unsigned.to_of, DecimalPos.Unsigned.of_to.
    reflexivity. }
  rewrite E, DecimalFacts.unorm_D0 in U. unfold Decimal.unorm in U.
  destruct (Decimal.nzhead l) as [| u | u | u | u | u | u | u | u | u | u]
    eqn:Z; try discriminate U.
  - injection U as <-.
    now apply (DecimalPos.Unsigned.to_uint_nonzero p).
  - now apply (DecimalFacts.nzhead_nonzero l u).
Qed.

Lemma digits_value_grows s : forall acc,
  all_digits s = true -> (0 <= acc)%Z ->
  (acc * 10 ^ Z.of_nat (String.length s) <= digits_value acc s)%Z.
Proof.
  induction s as [| c s IH]; intros acc D A;
    cbn [digits_value all_digits String.length] in *.
  - cbn. lia.
  - apply andb_true_iff in D. destruct D as [Hc D].
    destruct (digit_char c Hc) as (_ & _ & _ & _ & V).
    specialize (IH (10 * acc + digit_value c)%Z D).
    rewrite Nat2Z.inj_succ, Z.pow_succ_r by lia.
    assert (0 <= 10 ^ Z.of_nat (String.length s))%Z
      by (apply Z.pow_nonneg; lia).
    nia.
Qed.

(** The numeral of a positive integer: a digit from 1 to 9, then
    digits. *)
Lemma decimal_head p :
  exists c s,
    decimal (Zpos p) = String c s
    /\ (1 <= digit_value c)%Z /\ all_digits s = true.
Proof.
  rewrite decimal_pos.
  pose proof (to_uint_head p) as N0.
  pose proof (DecimalPos.Unsigned.to_uint_nonnil p) as N.
  destruct (Pos.to_uint p) as [| l | l | l | l | l | l | l | l | l | l];
    [congruence | now exfalso; apply (N0 l) | ..];
    cbn [NilEmpty.string_of_uint]; eexists _, _;
    (split; [reflexivity |]);
    (split; [vm_compute; discriminate | apply numeral_all_digits]).
Qed.

(** An integer below [2^53] has at most 21 digits (16, in fact). *)
Lemma ndigits_small p : (Zpos p < 2 ^ 53)%Z -> (ndigits (Zpos p) <= 21)%Z.
Proof.
  intros H. unfold ndigits.
  pose proof (decimal_value p) as V.
  destruct (decimal_head p) as (c & s & E & C & D).
  rewrite E in V |- *. cbn [digits_value String.length] in *.
  assert (A : (0 <= 10 * 0 + digit_value c)%Z) by lia.
  pose proof (digits_value_grows s _ D A) as G.
  rewrite V in G.
  set (len := Z.of_nat (String.length s)) in *.
  assert (P : (0 < 10 ^ len)%Z) by (apply Z.pow_pos_nonneg; lia).
  assert (T : (10 ^ len <= Zpos p)%Z) by nia.
  rewrite Nat2Z.inj_succ. fold len.
  destruct (Z.le_gt_cases 21 len) as [Big | Small]; [| lia].
  assert (M : (10 ^ 21 <= 10 ^ len)%Z) by (apply Z.pow_le_mono_r; lia).
  assert (B : (2 ^ 53 < 10 ^ 21)%Z) by reflexivity.
  lia.
Qed.

(** The digits printed for an integer below [2^53] are its decimal
    numeral. *)
Lemma toString_is_decimal z :
  (0 <= z < 2 ^ 53)%Z -> toString (Fin z) = decimal z.
Proof.
  intros [L U]. destruct z as [| p | p]; [reflexivity | | lia].
  cbn [toString]. unfold pos_toString.
  rewrite shortest_small by lia.
  pose proof (ndigits_small p U) as N.
  apply Z.leb_le in N. now rewrite N.
Qed.

Lemma decimal_digits z :
  (0 <= z)%Z ->
  decimal z <> EmptyString /\ all_digits (decimal z) = true
  /\ digits_value 0 (decimal z) = z.
Proof.
  intros L. destruct z as [| p | p]; [| | lia].
  - vm_compute. repeat split; congruence.
  - split; [| split; [| apply decimal_value]].
    + rewrite decimal_pos.
      pose proof (DecimalPos.Unsigned.to_uint_nonnil p) as N.
      destruct (Pos.to_uint p); cbn; congruence.
    + rewrite decimal_pos. apply numeral_all_digits.
Qed.

(** Printing an integer below [2^53] and reading it back gives the
    integer. *)
Lemma parseInt_toString z rest :
  (0 <= z < 2 ^ 53)%Z -> starts_with_digit rest = false ->
  parseInt (toString (Fin z) ++ rest) = Fin z.
Proof.
  intros Hz R. rewrite toString_is_decimal by exact Hz.
  destruct (decimal_digits z (proj1 Hz)) as (N & D & V).
  rewrite parseInt_digits by assumption.
  rewrite V. now apply to_double_small.
Qed.

End NumberFacts.

(* ================================================================== *)
(** ** Properties of the script *)

Module Claims.
Import Js Run Script Spec Sample RunFacts ScriptFacts RegexFacts ScanFacts
       ParseFacts NumberFacts.
Local Open Scope list_scope.

(** The inventory command is not a mutation command. *)
Lemma set_command_not_list n : set_command n <> list_command.
Proof.
  unfold set_command, list_command. cbn [append]. discriminate.
Qed.

(** [fixInstance] throws exactly when its command fails. *)
Lemma fixInstance_throws_iff env n w :
  (exists message, shell env (commands w) (set_command n) = ExecFail message)
  <-> (exists message w', fixInstance env n w = (Throw message, w')).
Proof.
  split.
  - intros (m & H). destruct (fixInstance_fail env n m w H) as (w' & E & _).
    now exists m, w'.
  - intros (m & w' & E).
    destruct (shell env (commands w) (set_command n)) as [o | m'] eqn:H.
    + destruct (fixInstance_ok env n o w H) as (w'' & E' & _). congruence.
    + now exists m'.
Qed.

(** C1.  When the major version that [getNodeVersion] reports is below 22,
    [main] ends the process with status 0 and the list of executed commands
    is what it was: no command at all is run, so no mutation command. *)
Theorem C1_old_platform_exits_untouched env w :
  lt (reported_major env) (Fin 22) = true ->
  exists w', main env w = (Exit 0, w') /\ commands w' = commands w.
Proof.
  intros H. destruct (main_early env w H) as (w' & E & C).
  exists w'. split; [exact E |]. now rewrite C, app_nil_r.
Qed.

Lemma C1_witness :
  exists w', main node20 start = (Exit 0, w') /\ commands w' = commands start.
Proof.
  apply (C1_old_platform_exits_untouched node20 start). vm_compute. reflexivity.
Defined.

(** C4.  When the inventory command fails, [getEusecInstances] returns the
    empty array (wherever it is called after the same commands), and [main],
    on a platform that is not below 22, ends with status 0 having executed
    the inventory command and nothing else; the inventory command is not a
    mutation command. *)
Theorem C4_inventory_failure_is_not_fatal env w message :
  lt (reported_major env) (Fin 22) = false ->
  shell env (commands w) list_command = ExecFail message ->
  (forall w1, commands w1 = commands w ->
     exists w2, getEusecInstances env w1 = (Ret [], w2)
                /\ commands w2 = commands w ++ [list_command])
  /\ (exists w', main env w = (Exit 0, w')
                 /\ commands w' = commands w ++ [list_command])
  /\ (forall n, set_command n <> list_command).
Proof.
  intros Hlt Hfail. split; [| split].
  - intros w1 E1.
    destruct (getEusecInstances_runs env w1) as (w2 & E & C).
    unfold discovered in E. rewrite E1, Hfail in E.
    exists w2. split; [exact E |]. now rewrite C, E1.
  - destruct (main_late env w Hlt) as (w' & E & C).
    unfold discovered in E, C. rewrite Hfail in E, C.
    now exists w'.
  - apply set_command_not_list.
Qed.

Lemma C4_witness :
  (forall w1, commands w1 = commands start ->
     exists w2, getEusecInstances node22_no_iob w1 = (Ret [], w2)
                /\ commands w2 = commands start ++ [list_command])
  /\ (exists w', main node22_no_iob start = (Exit 0, w')
                 /\ commands w' = commands start ++ [list_command])
  /\ (forall n, set_command n <> list_command).
Proof.
  apply (C4_inventory_failure_is_not_fatal node22_no_iob start "iob: not found").
  - vm_compute. reflexivity.
  - reflexivity.
Defined.

(** C6.  On a platform of major version 22 or more where
    [getEusecInstances] returns the empty array, [main] ends with status 0
    and the only command executed is the inventory command, which is not a
    mutation command. *)
Theorem C6_nothing_to_fix env w :
  ge (reported_major env) (Fin 22) = true ->
  discovered env (commands w) = [] ->
  exists w', main env w = (Exit 0, w')
             /\ commands w' = commands w ++ [list_command]
             /\ (forall n, set_command n <> list_command).
Proof.
  intros Hge Hnone.
  destruct (main_late env w (ge_not_lt _ _ Hge)) as (w' & E & C).
  rewrite Hnone in E, C. exists w'.
  split; [exact E |]. split; [exact C | apply set_command_not_list].
Qed.

Lemma C6_witness :
  exists w', main node22_empty start = (Exit 0, w')
             /\ commands w' = commands start ++ [list_command]
             /\ (forall n, set_command n <> list_command).
Proof.
  apply (C6_nothing_to_fix node22_empty start).
  - vm_compute. reflexivity.
  - vm_compute. reflexivity.
Defined.

(** The mutation command on known instance numbers. *)
Example set_command_on_known_values :
  set_command (Fin 0)
  = "iob object set system.adapter.eusec.0 common.nodeProcessParams=[]"
  /\ set_command (Fin 12)
     = "iob object set system.adapter.eusec.12 common.nodeProcessParams=[]"
  /\ set_command (Fin 4503599627370495)
     = "iob object set system.adapter.eusec.4503599627370495 common.nodeProcessParams=[]".
Proof. vm_compute. repeat split; reflexivity. Qed.

(** C7.  [fixInstance(n)] executes exactly one command, whether that command
    succeeds (it then returns) or fails (it then throws): [iob object set],
    the object id [system.adapter.eusec.<n>], and the assignment
    [common.nodeProcessParams=[]].  For an instance number [z] below
    [2^53], [<n>] is the decimal numeral of [z]: digits only, at least one,
    of value [z], which [parseInt] reads back as [z]. *)
Theorem C7_fixInstance_one_command env n w :
  exists o w',
    fixInstance env n w = (o, w')
    /\ (o = Ret tt \/ exists message, o = Throw message)
    /\ commands w' = commands w ++ [set_command n]
    /\ set_command n
       = ("iob object set " ++ objectId n ++ " "
          ++ "common.nodeProcessParams=[]")%string
    /\ objectId n = ("system.adapter.eusec." ++ toString n)%string
    /\ (forall z, n = Fin z -> (0 <= z < 2 ^ 53)%Z ->
          set_command n
          = ("iob object set system.adapter.eusec." ++ decimal z
             ++ " common.nodeProcessParams=[]")%string
          /\ decimal z <> EmptyString
          /\ all_digits (decimal z) = true
          /\ digits_value 0 (decimal z) = z
          /\ parseInt (decimal z) = Fin z).
Proof.
  assert (Pin : forall z, n = Fin z -> (0 <= z < 2 ^ 53)%Z ->
            set_command n
            = ("iob object set system.adapter.eusec." ++ decimal z
               ++ " common.nodeProcessParams=[]")%string
            /\ decimal z <> EmptyString
            /\ all_digits (decimal z) = true
            /\ digits_value 0 (decimal z) = z
            /\ parseInt (decimal z) = Fin z).
  { intros z -> Hz.
    destruct (decimal_digits z (proj1 Hz)) as (N & D & V).
    split; [| split; [exact N | split; [exact D | split; [exact V |]]]].
    - unfold set_command, objectId.
      rewrite (toString_is_decimal z Hz), append_assoc. reflexivity.
    - rewrite parseInt_all_digits by assumption.
      rewrite V. now apply to_double_small. }
  destruct (shell env (commands w) (set_command n)) as [output | message] eqn:H.
  - destruct (fixInstance_ok env n output w H) as (w' & E & C).
    exists (Ret tt), w'. split; [exact E |]. split; [now left |].
    split; [exact C |]. split; [reflexivity |]. split; [reflexivity | exact Pin].
  - destruct (fixInstance_fail env n message w H) as (w' & E & C).
    exists (Throw message), w'. split; [exact E |].
    split; [right; now exists message |].
    split; [exact C |]. split; [reflexivity |]. split; [reflexivity | exact Pin].
Qed.


(** C2.  On a platform of major version 22 or more with at least one
    discovered instance, [main] executes the inventory command and then one
    mutation command for every discovered instance, in order, whichever of
    them fail; it ends with status 1 when some mutation command fails and
    with status 0 when none does.  (By [fixInstance_throws_iff] a mutation
    command fails exactly when [fixInstance] throws.) *)
Theorem C2_failures_decide_the_status env w :
  ge (reported_major env) (Fin 22) = true ->
  discovered env (commands w) <> [] ->
  exists status w',
    main env w = (Exit status, w')
    /\ commands w'
       = commands w
         ++ list_command :: map set_command (discovered env (commands w))
    /\ (status = 1%Z <->
        exists k, mutation_fails env (commands w ++ [list_command])
                                 (discovered env (commands w)) k)
    /\ (status = 0%Z <->
        ~ exists k, mutation_fails env (commands w ++ [list_command])
                                   (discovered env (commands w)) k).
Proof.
  intros Hge _.
  destruct (main_late env w (ge_not_lt _ _ Hge)) as (w' & E & C).
  pose proof (count_failures_pos env (discovered env (commands w))
                (commands w ++ [list_command])) as P.
  destruct (0 <? count_failures env (commands w ++ [list_command])
                   (discovered env (commands w)))%Z eqn:F.
  - apply Z.ltb_lt in F. exists 1%Z, w'.
    split; [exact E |]. split; [exact C |]. split.
    + split; [intros _; now apply P | reflexivity].
    + split; [discriminate |]. intros N. exfalso. apply N. now apply P.
  - apply Z.ltb_ge in F. exists 0%Z, w'.
    split; [exact E |]. split; [exact C |]. split.
    + split; [discriminate |]. intros H. apply P in H. lia.
    + split; [| reflexivity]. intros _ H. apply P in H. lia.
Qed.

Lemma C2_witness :
  exists status w',
    main node22_first_broken start = (Exit status, w')
    /\ commands w'
       = commands start
         ++ list_command
            :: map set_command (discovered node22_first_broken (commands start))
    /\ (status = 1%Z <->
        exists k, mutation_fails node22_first_broken
                    (commands start ++ [list_command])
                    (discovered node22_first_broken (commands start)) k)
    /\ (status = 0%Z <->
        ~ exists k, mutation_fails node22_first_broken
                      (commands start ++ [list_command])
                      (discovered node22_first_broken (commands start)) k).
Proof.
  apply (C2_failures_decide_the_status node22_first_broken start).
  - vm_compute. reflexivity.
  - vm_compute. discriminate.
Defined.

(** Where the mutation command of instance 0 fails, the run ends with
    status 1 after both mutation commands. *)
Example first_broken_run :
  fst (main node22_first_broken start) = Exit 1%Z
  /\ commands (snd (main node22_first_broken start))
     = [ list_command; set_command (Fin 0); set_command (Fin 2) ].
Proof. vm_compute. split; reflexivity. Qed.

(** C3.  When the inventory command succeeds, [getEusecInstances] returns an
    array without repetition; its numbers are exactly the numbers of the
    first matches of the lines of the output, so a line that contains no
    [system.adapter.eusec.<digits>] adds none; and leaving such a line out
    of the output does not change the array. *)
Theorem C3_instances_without_repetition env w output :
  shell env (commands w) list_command = ExecOk output ->
  exists instances w',
    getEusecInstances env w = (Ret instances, w')
    /\ NoDup instances
    /\ (forall n, In n instances <->
          exists line pre ds rest,
            In line (split LF (trim output))
            /\ First_match line pre ds rest /\ n = parseInt ds)
    /\ (forall before line after,
          split LF (trim output) = before ++ line :: after ->
          ~ Contains_id line ->
          instances = scan_lines (before ++ after) []).
Proof.
  intros Hok.
  destruct (getEusecInstances_runs env w) as (w' & E & _).
  unfold discovered in E. rewrite Hok in E.
  exists (scan_lines (split LF (trim output)) []), w'.
  split; [exact E |]. split; [| split].
  - apply scan_lines_NoDup. constructor.
  - intros n. rewrite scan_lines_In. split.
    + intros [[] | (line & ds & I & M & ->)].
      destruct (regex_match_inv _ _ M) as (pre & rest & F).
      now exists line, pre, ds, rest.
    + intros (line & pre & ds & rest & I & F & ->). right.
      exists line, ds. split; [exact I |]. split; [| reflexivity].
      eapply regex_match_first, F.
  - intros before line after L N. rewrite L. now apply scan_lines_skip.
Qed.

Lemma C3_witness :
  exists instances w',
    getEusecInstances node22_noisy start = (Ret instances, w')
    /\ NoDup instances
    /\ (forall n, In n instances <->
          exists line pre ds rest,
            In line (split LF (trim inventory_noisy))
            /\ First_match line pre ds rest /\ n = parseInt ds)
    /\ (forall before line after,
          split LF (trim inventory_noisy) = before ++ line :: after ->
          ~ Contains_id line ->
          instances = scan_lines (before ++ after) []).
Proof.
  apply (C3_instances_without_repetition node22_noisy start inventory_noisy).
  reflexivity.
Defined.

(** The noisy inventory names instance 0 twice (once as [00]) and instance
    1 twice; each is returned once. *)
Example noisy_inventory :
  fst (getEusecInstances node22_noisy start) = Ret [Fin 0; Fin 1].
Proof. vm_compute. reflexivity. Qed.

(** C5.  On a platform of major version 22 or more where the discovered
    instances are [[0, 2]], [main] executes, after the inventory command,
    exactly the mutation command of instance 0 and then that of instance 2;
    when both succeed the status is 0. *)
Theorem C5_two_instances env w :
  ge (reported_major env) (Fin 22) = true ->
  discovered env (commands w) = [Fin 0; Fin 2] ->
  exists status w',
    main env w = (Exit status, w')
    /\ commands w'
       = commands w
         ++ [ list_command;
              "iob object set system.adapter.eusec.0 common.nodeProcessParams=[]";
              "iob object set system.adapter.eusec.2 common.nodeProcessParams=[]" ]
    /\ (forall output0 output2,
          shell env (commands w ++ [list_command])
            "iob object set system.adapter.eusec.0 common.nodeProcessParams=[]"
          = ExecOk output0 ->
          shell env
            (commands w
             ++ [ list_command;
                  "iob object set system.adapter.eusec.0 common.nodeProcessParams=[]" ])
            "iob object set system.adapter.eusec.2 common.nodeProcessParams=[]"
          = ExecOk output2 ->
          status = 0%Z).
Proof.
  intros Hge Hfound.
  destruct (main_late env w (ge_not_lt _ _ Hge)) as (w' & E & C).
  rewrite Hfound in E, C.
  assert (S0 : set_command (Fin 0)
               = "iob object set system.adapter.eusec.0 common.nodeProcessParams=[]")
    by (vm_compute; reflexivity).
  assert (S2 : set_command (Fin 2)
               = "iob object set system.adapter.eusec.2 common.nodeProcessParams=[]")
    by (vm_compute; reflexivity).
  cbn [map count_failures] in E, C. rewrite S0, S2 in E, C.
  eexists _, w'. split; [exact E |]. split; [exact C |].
  intros output0 output2 H0 H2.
  rewrite <- app_assoc. cbn [app].
  now rewrite H0, H2.
Qed.

Lemma C5_witness :
  exists status w',
    main node22 start = (Exit status, w')
    /\ commands w'
       = commands start
         ++ [ list_command;
              "iob object set system.adapter.eusec.0 common.nodeProcessParams=[]";
              "iob object set system.adapter.eusec.2 common.nodeProcessParams=[]" ]
    /\ (forall output0 output2,
          shell node22 (commands start ++ [list_command])
            "iob object set system.adapter.eusec.0 common.nodeProcessParams=[]"
          = ExecOk output0 ->
          shell node22
            (commands start
             ++ [ list_command;
                  "iob object set system.adapter.eusec.0 common.nodeProcessParams=[]" ])
            "iob object set system.adapter.eusec.2 common.nodeProcessParams=[]"
          = ExecOk output2 ->
          status = 0%Z).
Proof.
  apply (C5_two_instances node22 start).
  - vm_compute. reflexivity.
  - vm_compute. reflexivity.
Defined.

(** On a host where both mutation commands succeed the status is 0. *)
Example two_instances_run :
  fst (main node22 start) = Exit 0%Z
  /\ commands (snd (main node22 start))
     = [ list_command; set_command (Fin 0); set_command (Fin 2) ].
Proof. vm_compute. split; reflexivity. Qed.



(** The first line of this inventory names instances 0 and 1: instance 1
    is not returned. *)
Example second_identifier_dropped :
  fst (getEusecInstances node22_two_on_a_line start) = Ret [Fin 0; Fin 2].
Proof. vm_compute. reflexivity. Qed.

(** C9, as stated, fails.  In the version [v2x.0.0] the first segment
    without its first character is [2x], which is not numeric, yet
    [getNodeVersion] returns 2, not NaN, and [main] takes the early exit:
    status 0 and no command. *)
Lemma C9_counterexample :
  is_numeric (major_segment (version node_2x)) = false
  /\ (exists w', getNodeVersion node_2x start = (Ret (Fin 2), w'))
  /\ ~ (exists w', getNodeVersion node_2x start = (Ret NaN, w'))
  /\ lt (Fin 2) (Fin 22) = true
  /\ (exists w', main node_2x start = (Exit 0%Z, w')
                 /\ commands w' = commands start).
Proof.
  assert (R : reported_major node_2x = Fin 2) by (vm_compute; reflexivity).
  destruct (getNodeVersion_runs node_2x start) as (w1 & E1 & _).
  rewrite R in E1.
  split; [vm_compute; reflexivity |].
  split; [now exists w1 |].
  split; [intros (w' & E); rewrite E1 in E; discriminate E |].
  split; [reflexivity |].
  destruct (main_early node_2x start) as (w2 & E2 & C2).
  - rewrite R. reflexivity.
  - exists w2. split; [exact E2 |]. now rewrite C2, app_nil_r.
Qed.

(** C9, amended.  When the first dot-separated segment of the version
    without its first character, once leading white space and one sign are
    skipped, does not begin with a decimal digit, [getNodeVersion] returns
    NaN; [NaN < 22] is false, so [main] does not take the early exit: it
    executes the inventory command and one mutation command per discovered
    instance. *)
Theorem C9_version_without_digit_fails_open env w :
  starts_with_digit (after_sign (major_segment (version env))) = false ->
  (exists w', getNodeVersion env w = (Ret NaN, w')
              /\ commands w' = commands w)
  /\ lt NaN (Fin 22) = false
  /\ (exists status w',
        main env w = (Exit status, w')
        /\ commands w'
           = commands w
             ++ list_command
                :: map set_command (discovered env (commands w))).
Proof.
  intros H. apply parseInt_NaN in H.
  change (parseInt (major_segment (version env)))
    with (reported_major env) in H.
  split; [| split; [reflexivity |]].
  - destruct (getNodeVersion_runs env w) as (w' & E & C).
    rewrite H in E. exists w'. split; [exact E |]. now rewrite C, app_nil_r.
  - assert (L : lt (reported_major env) (Fin 22) = false)
      by (rewrite H; reflexivity).
    destruct (main_late env w L) as (w' & E & C).
    eexists _, w'. split; [exact E | exact C].
Qed.

Lemma C9_witness :
  (exists w', getNodeVersion node_unnumbered start = (Ret NaN, w')
              /\ commands w' = commands start)
  /\ lt NaN (Fin 22) = false
  /\ (exists status w',
        main node_unnumbered start = (Exit status, w')
        /\ commands w'
           = commands start
             ++ list_command
                :: map set_command
                     (discovered node_unnumbered (commands start))).
Proof.
  apply (C9_version_without_digit_fails_open node_unnumbered start).
  vm_compute. reflexivity.
Defined.

End Claims.

(* ================================================================== *)
(** ** Transcripts: what is logged, next to what is executed *)

Module ConsoleFacts.
Import Js Run Script Spec Notions.
Local Open Scope list_scope.

Lemma stamped_length env messages : forall k,
  List.length (stamped env k messages) = List.length messages.
Proof.
  induction messages as [| m rest IH]; intros k; cbn [stamped List.length].
  - reflexivity.
  - now rewrite IH.
Qed.

Lemma stamped_app env l1 l2 : forall k,
  stamped env k (l1 ++ l2)
  = stamped env k l1 ++ stamped env (k + List.length l1) l2.
Proof.
  induction l1 as [| m rest IH]; intros k; cbn [stamped List.length app].
  - now rewrite Nat.add_0_r.
  - rewrite IH. now rewrite Nat.add_succ_r.
Qed.

Lemma says_ret {A} env (a : A) w : says env (ret a) w (Ret a) [] [].
Proof.
  exists w. cbn [stamped]. now rewrite !app_nil_r.
Qed.

Lemma says_throw {A} env e w : says env (@throw A e) w (Throw e) [] [].
Proof.
  exists w. cbn [stamped]. now rewrite !app_nil_r.
Qed.

Lemma says_exit {A} env c w : says env (@exit A c) w (Exit c) [] [].
Proof.
  exists w. cbn [stamped]. now rewrite !app_nil_r.
Qed.

Lemma says_log env message w :
  says env (log env message) w (Ret tt) [] [message].
Proof.
  unfold says, log. eexists. split; [reflexivity |].
  cbn [commands console stamped]. now rewrite app_nil_r.
Qed.

(** The two transcripts of a sequence follow each other. *)
Lemma says_join env w w1 w2 c1 c2 l1 l2 :
  commands w1 = commands w ++ c1 ->
  console w1 = console w ++ stamped env (List.length (console w)) l1 ->
  commands w2 = commands w1 ++ c2 ->
  console w2 = console w1 ++ stamped env (List.length (console w1)) l2 ->
  commands w2 = commands w ++ c1 ++ c2
  /\ console w2
     = console w ++ stamped env (List.length (console w)) (l1 ++ l2).
Proof.
  intros C1 L1 C2 L2. split.
  - now rewrite C2, C1, app_assoc.
  - rewrite L2, L1, stamped_app, length_app, stamped_length.
    now rewrite app_assoc.
Qed.

Lemma says_eq {A} env (m : M A) w o c l c' l' :
  says env m w o c l -> c = c' -> l = l' -> says env m w o c' l'.
Proof. now intros H <- <-. Qed.

Lemma says_bind {A B} env (m : M A) (k : A -> M B) w a c1 l1 o c2 l2 :
  says env m w (Ret a) c1 l1 ->
  (forall w', commands w' = commands w ++ c1 -> says env (k a) w' o c2 l2) ->
  says env (bind m k) w o (c1 ++ c2) (l1 ++ l2).
Proof.
  intros (w1 & Hm & C1 & L1) Hk.
  destruct (Hk w1 C1) as (w2 & Hk2 & C2 & L2).
  exists w2. unfold bind. rewrite Hm. split; [exact Hk2 |].
  eapply says_join; eassumption.
Qed.

Lemma says_bind_throw {A B} env (m : M A) (k : A -> M B) w e c l :
  says env m w (Throw e) c l -> says env (bind m k) w (Throw e) c l.
Proof.
  intros (w1 & Hm & H). exists w1. unfold bind. now rewrite Hm.
Qed.

Lemma says_bind_exit {A B} env (m : M A) (k : A -> M B) w s c l :
  says env m w (Exit s) c l -> says env (bind m k) w (Exit s) c l.
Proof.
  intros (w1 & Hm & H). exists w1. unfold bind. now rewrite Hm.
Qed.

Lemma says_try_ret {A} env (m : M A) h w a c l :
  says env m w (Ret a) c l -> says env (try_catch m h) w (Ret a) c l.
Proof.
  intros (w1 & Hm & H). exists w1. unfold try_catch. now rewrite Hm.
Qed.

Lemma says_try_throw {A} env (m : M A) h w e c1 l1 o c2 l2 :
  says env m w (Throw e) c1 l1 ->
  (forall w', commands w' = commands w ++ c1 -> says env (h e) w' o c2 l2) ->
  says env (try_catch m h) w o (c1 ++ c2) (l1 ++ l2).
Proof.
  intros (w1 & Hm & C1 & L1) Hh.
  destruct (Hh w1 C1) as (w2 & Hh2 & C2 & L2).
  exists w2. unfold try_catch. rewrite Hm. split; [exact Hh2 |].
  eapply says_join; eassumption.
Qed.

(** A log line, then the rest. *)
Lemma says_after_log {B} env message (k : M B) w o c l :
  (forall w', commands w' = commands w -> says env k w' o c l) ->
  says env (bind (log env message) (fun _ => k)) w o c (message :: l).
Proof.
  intros Hk. change c with ([] ++ c). change (message :: l) with ([message] ++ l).
  eapply says_bind; [apply says_log |].
  intros w' Hw'. apply Hk. now rewrite Hw', app_nil_r.
Qed.

(** A first step that executes and logs nothing. *)
Lemma says_bind_quiet {A B} env (m : M A) (k : A -> M B) w a o c l :
  says env m w (Ret a) [] [] ->
  (forall w', commands w' = commands w -> says env (k a) w' o c l) ->
  says env (bind m k) w o c l.
Proof.
  intros Hm Hk. change c with ([] ++ c). change l with ([] ++ l).
  eapply says_bind; [exact Hm |].
  intros w' Hw'. apply Hk. now rewrite Hw', app_nil_r.
Qed.

Section WithEnv.

Variable env : Env.

Lemma execSync_says command w :
  says env (execSync env command) w
       (match shell env (commands w) command with
        | ExecOk output => Ret output
        | ExecFail message => Throw message
        end)
       [command] [].
Proof.
  unfold says, execSync.
  destruct (shell env (commands w) command); eexists;
    (split; [reflexivity |]); cbn [commands console stamped];
    now rewrite app_nil_r.
Qed.

Lemma executeCommand_says command w :
  says env (executeCommand env command) w
       (match shell env (commands w) command with
        | ExecOk output => Ret (trim output)
        | ExecFail message => Throw message
        end)
       [command]
       (match shell env (commands w) command with
        | ExecOk _ => []
        | ExecFail message => [error_line command message]
        end).
Proof.
  unfold executeCommand.
  pose proof (execSync_says command w) as H.
  destruct (shell env (commands w) command) as [output | message].
  - apply says_try_ret.
    eapply says_eq;
      [eapply says_bind; [exact H | intros; apply says_ret] | |]; reflexivity.
  - eapply says_eq;
      [eapply says_try_throw; [apply says_bind_throw, H |] | |];
      [| reflexivity | reflexivity].
    intros w' _. apply says_after_log. intros; apply says_throw.
Qed.

Lemma fixInstance_says n w :
  says env (fixInstance env n) w
       (match shell env (commands w) (set_command n) with
        | ExecOk _ => Ret tt
        | ExecFail message => Throw message
        end)
       [set_command n]
       (fix_messages n (shell env (commands w) (set_command n))).
Proof.
  unfold fixInstance, fix_messages. cbv zeta.
  apply says_after_log. intros w1 E1.
  apply says_after_log. intros w2 E2.
  pose proof (executeCommand_says (set_command n) w2) as H.
  replace (commands w2) with (commands w) in H by congruence.
  destruct (shell env (commands w) (set_command n)) as [output | message].
  - apply says_try_ret.
    eapply says_eq;
      [eapply says_bind; [exact H | intros; apply says_log] | |]; reflexivity.
  - eapply says_eq;
      [eapply says_try_throw; [apply says_bind_throw, H |] | |];
      [| reflexivity | reflexivity].
    intros w3 _. apply says_after_log. intros; apply says_throw.
Qed.

Lemma getEusecInstances_says w :
  says env (getEusecInstances env) w
       (Ret (discovered env (commands w)))
       [list_command]
       (inventory_messages (shell env (commands w) list_command)).
Proof.
  unfold getEusecInstances, inventory_messages, discovered.
  apply says_after_log. intros w1 E1.
  pose proof (executeCommand_says list_command w1) as H.
  replace (commands w1) with (commands w) in H by congruence.
  destruct (shell env (commands w) list_command) as [output | message].
  - apply says_try_ret.
    eapply says_eq; [eapply says_bind; [exact H |] | |];
      [| reflexivity | reflexivity].
    intros w2 _. cbv zeta. apply says_after_log. intros; apply says_ret.
  - eapply says_eq;
      [eapply says_try_throw; [apply says_bind_throw, H |] | |];
      [| reflexivity | reflexivity].
    intros w2 _. apply says_after_log. intros; apply says_ret.
Qed.

(** One turn of the loop of [main]. *)
Lemma fix_turn_says n s f w :
  says env
       (try_catch (bind (fixInstance env n) (fun _ => ret (s + 1, f)%Z))
                  (fun _ => ret (s, f + 1)%Z))
       w
       (Ret (match shell env (commands w) (set_command n) with
             | ExecOk _ => (s + 1, f)%Z
             | ExecFail _ => (s, f + 1)%Z
             end))
       [set_command n]
       (fix_messages n (shell env (commands w) (set_command n))).
Proof.
  pose proof (fixInstance_says n w) as H.
  destruct (shell env (commands w) (set_command n)) as [output | message].
  - apply says_try_ret.
    eapply says_eq;
      [eapply says_bind; [exact H | intros; apply says_ret] | |];
      [reflexivity | apply app_nil_r].
  - eapply says_eq;
      [eapply says_try_throw;
       [apply says_bind_throw, H | intros; apply says_ret] | |];
      [reflexivity | apply app_nil_r].
Qed.

Lemma fix_each_says instances : forall s f w,
  says env (fix_each env instances s f) w
       (Ret (s + Z.of_nat (List.length instances)
               - count_failures env (commands w) instances,
             f + count_failures env (commands w) instances)%Z)
       (map set_command instances)
       (loop_messages env (commands w) instances).
Proof.
  induction instances as [| n rest IH]; intros s f w.
  - cbn [fix_each count_failures List.length map loop_messages].
    replace (s + Z.of_nat 0 - 0)%Z with s by lia.
    replace (f + 0)%Z with f by lia.
    apply says_ret.
  - cbn [fix_each count_failures List.length map loop_messages].
    change (set_command n :: map set_command rest)
      with ([set_command n] ++ map set_command rest).
    eapply says_bind; [apply fix_turn_says |].
    intros w1 E1.
    destruct (shell env (commands w) (set_command n)); cbn [fst snd];
      rewrite <- E1.
    + replace (s + Z.of_nat (S (List.length rest))
               - (0 + count_failures env (commands w1) rest))%Z
        with (s + 1 + Z.of_nat (List.length rest)
              - count_failures env (commands w1) rest)%Z by lia.
      replace (f + (0 + count_failures env (commands w1) rest))%Z
        with (f + count_failures env (commands w1) rest)%Z by lia.
      apply IH.
    + replace (s + Z.of_nat (S (List.length rest))
               - (1 + count_failures env (commands w1) rest))%Z
        with (s + Z.of_nat (List.length rest)
              - count_failures env (commands w1) rest)%Z by lia.
      replace (f + (1 + count_failures env (commands w1) rest))%Z
        with (f + 1 + count_failures env (commands w1) rest)%Z by lia.
      apply IH.
Qed.

Lemma fix_each_says_at instances s f w history :
  commands w = history ->
  says env (fix_each env instances s f) w
       (Ret (s + Z.of_nat (List.length instances)
               - count_failures env history instances,
             f + count_failures env history instances)%Z)
       (map set_command instances)
       (loop_messages env history instances).
Proof. intros <-. apply fix_each_says. Qed.

Lemma getNodeVersion_says w :
  says env (getNodeVersion env) w (Ret (reported_major env)) []
       [("Detected Node.js version: " ++ version env ++ " (major: "
         ++ toString (reported_major env) ++ ")")%string].
Proof.
  unfold getNodeVersion. apply says_after_log. intros; apply says_ret.
Qed.

(** The transcript of [main] on a platform older than 22. *)
Lemma main_early_says w :
  lt (reported_major env) (Fin 22) = true ->
  exists middle,
    says env (main env) w (Exit 0) []
         (start_banner :: middle ++ [success_banner]).
Proof.
  intros Hlt.
  exists [("Detected Node.js version: " ++ version env ++ " (major: "
           ++ toString (reported_major env) ++ ")")%string;
          ("Node.js version " ++ toString (reported_major env)
           ++ ".x is less than 22.x - no action needed")%string].
  unfold main. apply says_after_log. intros w1 E1.
  eapply says_eq; [eapply says_bind; [apply getNodeVersion_says |] | |];
    [| reflexivity | reflexivity].
  intros w2 E2. rewrite Hlt.
  apply says_bind_exit.
  apply says_after_log. intros w3 E3.
  apply says_after_log. intros w4 E4.
  apply says_exit.
Qed.

(** The transcript of [main] on any other platform. *)
Lemma main_late_says w :
  lt (reported_major env) (Fin 22) = false ->
  exists middle,
    says env (main env) w
         (Exit (if (0 <? count_failures env (commands w ++ [list_command])
                            (discovered env (commands w)))%Z
                then 1 else 0)%Z)
         (list_command :: map set_command (discovered env (commands w)))
         (start_banner
          :: middle
             ++ [closing
                   (if (0 <? count_failures env (commands w ++ [list_command])
                               (discovered env (commands w)))%Z
                    then 1 else 0)%Z]).
Proof.
  intros Hlt.
  pose (detected := ("Detected Node.js version: " ++ version env
                     ++ " (major: " ++ toString (reported_major env)
                     ++ ")")%string).
  pose (proceeding := ("Node.js version " ++ toString (reported_major env)
                       ++ ".x is >= 22.x - proceeding with fix")%string).
  pose (found := inventory_messages (shell env (commands w) list_command)).
  destruct (discovered env (commands w)) as [| n rest] eqn:D.
  - exists (detected :: proceeding :: found
            ++ ["No eusec instances found - nothing to fix"%string]).
    cbn [count_failures Z.ltb Z.compare map closing Z.eqb].
    unfold main. apply says_after_log. intros w1 E1.
    eapply says_eq; [eapply says_bind; [apply getNodeVersion_says |] | |];
      [| reflexivity | reflexivity].
    intros w2 E2. rewrite Hlt.
    eapply says_bind_quiet; [apply says_ret |]. intros w3 E3.
    apply says_after_log. intros w4 E4.
    assert (E : commands w4 = commands w) by (rewrite app_nil_r in E2; congruence).
    eapply says_eq;
      [eapply says_bind; [apply getEusecInstances_says |] | |];
      [| reflexivity |].
    + intros w5 E5. rewrite E, D. cbn [List.length Nat.eqb].
      apply says_bind_exit.
      apply says_after_log. intros w6 E6.
      apply says_after_log. intros w7 E7.
      apply says_exit.
    + rewrite E.
      exact (app_assoc found ["No eusec instances found - nothing to fix"%string]
               [success_banner]).
  - set (cf := count_failures env (commands w ++ [list_command]) (n :: rest)).
    set (fixed := ("Fixed "
                   ++ toString (Fin (0 + Z.of_nat (List.length (n :: rest)) - cf))
                   ++ " instance(s), " ++ toString (Fin (0 + cf))
                   ++ " failure(s)")%string).
    set (looped := loop_messages env (commands w ++ [list_command]) (n :: rest)).
    exists (detected :: proceeding :: found ++ looped ++ [fixed]).
    assert (T : forall banner,
              found ++ looped ++ [fixed; banner]
              = (found ++ looped ++ [fixed]) ++ [banner]).
    { intros banner. rewrite <- !app_assoc. reflexivity. }
    destruct (0 <? cf)%Z eqn:F0; cbn [closing Z.eqb].
    + unfold main. apply says_after_log. intros w1 E1.
      eapply says_eq; [eapply says_bind; [apply getNodeVersion_says |] | |];
        [| reflexivity | reflexivity].
      intros w2 E2. rewrite Hlt.
      eapply says_bind_quiet; [apply says_ret |]. intros w3 E3.
      apply says_after_log. intros w4 E4.
      assert (E : commands w4 = commands w)
        by (rewrite app_nil_r in E2; congruence).
      eapply says_eq;
        [eapply says_bind; [apply getEusecInstances_says |] | |];
        [| reflexivity | rewrite E; exact (T error_banner)].
      intros w5 E5. rewrite E in E5 |- *. rewrite D. cbn [List.length Nat.eqb].
      eapply says_bind_quiet; [apply says_ret |]. intros w6 E6.
      eapply says_eq;
        [eapply says_bind;
         [apply (fix_each_says_at (n :: rest) 0 0 w6
                   (commands w ++ [list_command])); congruence |] | |];
        [| apply app_nil_r | reflexivity].
      intros w7 E7. cbv beta iota.
      apply says_after_log. intros w8 E8. fold cf.
      replace (0 <? 0 + cf)%Z with (0 <? cf)%Z by (f_equal; lia).
      rewrite F0.
      apply says_bind_exit.
      apply says_after_log. intros w9 E9. apply says_exit.
    + unfold main. apply says_after_log. intros w1 E1.
      eapply says_eq; [eapply says_bind; [apply getNodeVersion_says |] | |];
        [| reflexivity | reflexivity].
      intros w2 E2. rewrite Hlt.
      eapply says_bind_quiet; [apply says_ret |]. intros w3 E3.
      apply says_after_log. intros w4 E4.
      assert (E : commands w4 = commands w)
        by (rewrite app_nil_r in E2; congruence).
      eapply says_eq;
        [eapply says_bind; [apply getEusecInstances_says |] | |];
        [| reflexivity | rewrite E; exact (T success_banner)].
      intros w5 E5. rewrite E in E5 |- *. rewrite D. cbn [List.length Nat.eqb].
      eapply says_bind_quiet; [apply says_ret |]. intros w6 E6.
      eapply says_eq;
        [eapply says_bind;
         [apply (fix_each_says_at (n :: rest) 0 0 w6
                   (commands w ++ [list_command])); congruence |] | |];
        [| apply app_nil_r | reflexivity].
      intros w7 E7. cbv beta iota.
      apply says_after_log. intros w8 E8. fold cf.
      replace (0 <? 0 + cf)%Z with (0 <? cf)%Z by (f_equal; lia).
      rewrite F0.
      eapply says_bind_quiet; [apply says_ret |]. intros w9 E9.
      apply says_after_log. intros w10 E10. apply says_exit.
Qed.

End WithEnv.

End ConsoleFacts.

(* ================================================================== *)
(** ** trim and split *)

Module TextFacts.
Import Js Spec Notions NumberFacts.

Lemma trim_start_cut s :
  exists pre,
    s = (pre ++ trim_start s)%string
    /\ all_space pre = true /\ starts_with_space (trim_start s) = false.
Proof.
  induction s as [| c s (pre & E & A & S)]; cbn [trim_start].
  - exists EmptyString. now cbn.
  - destruct (is_space c) eqn:Hc.
    + exists (String c pre). cbn [append all_space]. rewrite Hc, A.
      repeat split; [now rewrite <- E | exact S].
    + exists EmptyString. cbn [append all_space starts_with_space].
      now rewrite Hc.
Qed.

Lemma trim_end_cut s :
  exists post,
    s = (trim_end s ++ post)%string
    /\ all_space post = true /\ ends_with_space (trim_end s) = false.
Proof.
  induction s as [| c s (post & E & A & S)]; cbn [trim_end].
  - exists EmptyString. now cbn.
  - destruct (trim_end s) as [| d t] eqn:T.
    + cbn [append] in E. subst post.
      destruct (is_space c) eqn:Hc.
      * exists (String c s). cbn [append all_space ends_with_space].
        now rewrite Hc, A.
      * exists s. cbn [append ends_with_space]. now rewrite Hc.
    + exists post. cbn [append ends_with_space] in *.
      repeat split; [now rewrite <- E | exact A | exact S].
Qed.

Lemma trim_end_keeps_start s :
  starts_with_space s = false -> starts_with_space (trim_end s) = false.
Proof.
  destruct s as [| c s]; cbn [trim_end starts_with_space]; [auto |].
  intros Hc. destruct (trim_end s); [| exact Hc].
  now rewrite Hc.
Qed.

Lemma trim_start_fixed s : starts_with_space s = false -> trim_start s = s.
Proof.
  destruct s as [| c s]; cbn [trim_start starts_with_space]; [auto |].
  now intros ->.
Qed.

Lemma trim_end_fixed s : ends_with_space s = false -> trim_end s = s.
Proof.
  induction s as [| c s IH]; cbn [trim_end ends_with_space]; [auto |].
  destruct s as [| d t].
  - cbn [trim_end]. now intros ->.
  - intros H. now rewrite (IH H).
Qed.

(** [split] keeps every character: the pieces, joined by the separator,
    are the string. *)
Lemma split_concat sep s :
  String.concat (String sep EmptyString) (split sep s) = s.
Proof.
  induction s as [| c s IH]; cbn [split]; [reflexivity |].
  destruct (Ascii.eqb c sep) eqn:E.
  - apply Ascii.eqb_eq in E. subst c.
    destruct (split sep s) as [| piece rest] eqn:P.
    + cbn in IH. subst s. discriminate P.
    + change (String.concat (String sep "") (EmptyString :: piece :: rest))
        with (String sep (String.concat (String sep "") (piece :: rest))).
      now rewrite IH.
  - destruct (split sep s) as [| piece rest] eqn:P.
    + cbn in IH. now subst s.
    + destruct rest as [| piece' rest'].
      * cbn in IH |- *. now subst s.
      * change (String.concat (String sep "") (piece :: piece' :: rest'))
          with (piece ++ String sep
                  (String.concat (String sep "") (piece' :: rest')))%string
          in IH.
        change (String.concat (String sep "")
                  (String c piece :: piece' :: rest'))
          with (String c (piece ++ String sep
                  (String.concat (String sep "") (piece' :: rest'))))%string.
        now rewrite IH.
Qed.

(** No piece holds the separator. *)
Lemma split_pieces sep s :
  Forall (fun piece => contains_char sep piece = false) (split sep s).
Proof.
  induction s as [| c s IH]; cbn [split].
  - constructor; [reflexivity | constructor].
  - destruct (Ascii.eqb c sep) eqn:E.
    + constructor; [reflexivity | exact IH].
    + destruct (split sep s) as [| piece rest].
      * constructor; [| constructor]. cbn. now rewrite E.
      * inversion IH; subst. constructor; [| assumption].
        cbn [contains_char]. now rewrite E.
Qed.

(** The first piece is what precedes the first separator. *)
Lemma split_first sep a b :
  contains_char sep a = false ->
  first (split sep (a ++ String sep b)) = a.
Proof.
  induction a as [| c a IH]; cbn [append split contains_char]; intros H.
  - now rewrite Ascii.eqb_refl.
  - apply orb_false_iff in H. destruct H as [E H]. rewrite E.
    specialize (IH H).
    destruct (split sep (a ++ String sep b)); cbn [first hd] in *;
      now subst.
Qed.

Lemma digits_without_dot ds :
  all_digits ds = true -> contains_char "." ds = false.
Proof.
  induction ds as [| c ds IH]; cbn [all_digits contains_char]; [auto |].
  intros H. apply andb_true_iff in H. destruct H as [Hc D].
  destruct (digit_char c Hc) as (_ & _ & _ & Dot & _).
  now rewrite Dot, IH.
Qed.

End TextFacts.

(* ================================================================== *)
(** ** The order of discovery *)

Module OrderFacts.
Import Js Script Spec Notions ScanFacts.
Local Open Scope list_scope.

Lemma first_occurrences_In l x : In x (first_occurrences l) <-> In x l.
Proof.
  unfold first_occurrences. now rewrite <- in_rev, nodup_In, <- in_rev.
Qed.

Lemma first_occurrences_push l x :
  first_occurrences (l ++ [x])
  = if includes (first_occurrences l) x then first_occurrences l
    else first_occurrences l ++ [x].
Proof.
  unfold first_occurrences at 1. rewrite rev_app_distr. cbn [rev app nodup].
  destruct (in_dec number_eq_dec x (rev l)) as [I | N].
  - apply in_rev, first_occurrences_In, includes_In in I. now rewrite I.
  - assert (F : includes (first_occurrences l) x = false).
    { apply includes_not_In. rewrite first_occurrences_In.
      intros I. apply N. now apply in_rev in I. }
    rewrite F. reflexivity.
Qed.

(** The loop over the lines computes the first occurrences of the numbers
    of the lines. *)
Lemma scan_lines_first_occurrences lines :
  scan_lines lines [] = first_occurrences (line_numbers lines).
Proof.
  induction lines as [| line lines IH] using rev_ind.
  - reflexivity.
  - unfold scan_lines, line_numbers in *.
    rewrite fold_left_app, flat_map_app. cbn [fold_left flat_map].
    rewrite IH. unfold scan_line.
    destruct (regex_match line) as [ds |].
    + cbn [app]. now rewrite first_occurrences_push.
    + now rewrite !app_nil_r.
Qed.

End OrderFacts.

(* ================================================================== *)
(** ** Further properties of the script *)

Module Further.
Import Js Run Script Spec Sample Notions RunFacts ScriptFacts RegexFacts
       ScanFacts ParseFacts ConsoleFacts NumberFacts TextFacts OrderFacts.
Local Open Scope list_scope.

(** [main] never returns and never lets an exception escape: it always ends
    the process, with status 0 or 1; status 1 needs a platform that is not
    older than 22 and at least one discovered instance. *)
Theorem main_always_exits env w :
  exists status w',
    main env w = (Exit status, w')
    /\ (status = 0%Z \/ status = 1%Z)
    /\ (status = 1%Z ->
        lt (reported_major env) (Fin 22) = false
        /\ discovered env (commands w) <> []).
Proof.
  destruct (lt (reported_major env) (Fin 22)) eqn:Hlt.
  - destruct (main_early env w Hlt) as (w' & E & _).
    exists 0%Z, w'. split; [exact E |]. split; [now left | discriminate].
  - destruct (main_late env w Hlt) as (w' & E & _).
    eexists _, w'. split; [exact E |].
    destruct (discovered env (commands w)) as [| n rest].
    + cbn. split; [now left | discriminate].
    + destruct (0 <? _)%Z; split; auto; try discriminate.
      intros _. split; [reflexivity | discriminate].
Qed.

(** [getEusecInstances] never throws, whatever the inventory command does:
    it returns an array without repetition after executing the inventory
    command and nothing else. *)
Theorem getEusecInstances_never_throws env w :
  exists instances w',
    getEusecInstances env w = (Ret instances, w')
    /\ commands w' = commands w ++ [list_command]
    /\ NoDup instances.
Proof.
  destruct (getEusecInstances_runs env w) as (w' & E & C).
  exists (discovered env (commands w)), w'.
  split; [exact E |]. split; [exact C |].
  unfold discovered. destruct (shell env (commands w) list_command).
  - apply scan_lines_NoDup. constructor.
  - constructor.
Qed.

(** The numbers [getEusecInstances] returns are non-negative integers, or
    infinity for an identifier too long for a double: never NaN, never
    negative. *)
Theorem instances_are_natural env w :
  exists instances w',
    getEusecInstances env w = (Ret instances, w')
    /\ Forall (fun n => n = PosInf \/ exists z, n = Fin z /\ (0 <= z)%Z)
              instances.
Proof.
  destruct (getEusecInstances_runs env w) as (w' & E & _).
  exists (discovered env (commands w)), w'. split; [exact E |].
  unfold discovered. destruct (shell env (commands w) list_command);
    [| constructor].
  apply Forall_forall. intros n I.
  apply scan_lines_In in I. destruct I as [[] | (line & ds & _ & M & ->)].
  destruct (regex_match_inv _ _ M) as (pre & rest & (_ & N & D) & _).
  rewrite parseInt_all_digits by assumption.
  apply to_double_nonneg.
  now apply (digits_value_nonneg ds 0%Z D).
Qed.

(** Every command [main] executes is the inventory command or the mutation
    command of the number that [parseInt] reads from the first match of a
    line of the inventory output: nothing else is ever executed.  (The
    number is what the command names; it need not print like the digits of
    the line.) *)
Theorem main_only_fixes_parsed_first_matches env w :
  exists status w' executed,
    main env w = (Exit status, w')
    /\ commands w' = commands w ++ executed
    /\ forall command, In command executed ->
         command = list_command
         \/ exists output line pre ds rest,
              shell env (commands w) list_command = ExecOk output
              /\ In line (split LF (trim output))
              /\ First_match line pre ds rest
              /\ command = set_command (parseInt ds).
Proof.
  destruct (lt (reported_major env) (Fin 22)) eqn:Hlt.
  - destruct (main_early env w Hlt) as (w' & E & C).
    exists 0%Z, w', []. split; [exact E |]. split; [exact C |].
    intros command [].
  - destruct (main_late env w Hlt) as (w' & E & C).
    eexists _, w', _. split; [exact E |]. split; [exact C |].
    intros command [<- | I]; [now left |]. right.
    apply in_map_iff in I. destruct I as (n & <- & I).
    unfold discovered in I.
    destruct (shell env (commands w) list_command) as [output |];
      [| destruct I].
    apply scan_lines_In in I. destruct I as [[] | (line & ds & L & M & ->)].
    destruct (regex_match_inv _ _ M) as (pre & rest & F).
    now exists output, line, pre, ds, rest.
Qed.

(** When the command fails, [executeCommand] logs one line that names the
    command and the error message, and throws the error again with its
    message unchanged. *)
Theorem executeCommand_rethrows env command message w :
  shell env (commands w) command = ExecFail message ->
  says env (executeCommand env command) w (Throw message) [command]
       [("Error executing command " ++ String DQ command ++ String DQ ": "
         ++ message)%string].
Proof.
  intros H. pose proof (executeCommand_says env command w) as S.
  now rewrite H in S.
Qed.

Lemma executeCommand_rethrows_witness :
  says node22_no_iob (executeCommand node22_no_iob list_command) start
       (Throw "iob: not found") [list_command]
       [("Error executing command " ++ String DQ list_command ++ String DQ ": "
         ++ "iob: not found")%string].
Proof.
  apply (executeCommand_rethrows node22_no_iob list_command "iob: not found"
           start).
  reflexivity.
Defined.

(** When the command succeeds, [executeCommand] logs nothing and returns the
    output without the white space at its two ends, and only that: what is
    cut off on either side is white space, what is returned neither begins
    nor ends with white space, and trimming it again changes nothing. *)
Theorem executeCommand_returns_trimmed_output env command output w :
  shell env (commands w) command = ExecOk output ->
  exists result before after,
    says env (executeCommand env command) w (Ret result) [command] []
    /\ output = (before ++ result ++ after)%string
    /\ all_space before = true /\ all_space after = true
    /\ starts_with_space result = false /\ ends_with_space result = false
    /\ trim result = result.
Proof.
  intros H. pose proof (executeCommand_says env command w) as S.
  rewrite H in S.
  destruct (trim_start_cut output) as (before & E1 & A1 & S1).
  destruct (trim_end_cut (trim_start output)) as (after & E2 & A2 & S2).
  exists (trim output), before, after. unfold trim.
  split; [exact S |]. split; [now rewrite <- E2 |].
  split; [exact A1 |]. split; [exact A2 |].
  pose proof (trim_end_keeps_start _ S1) as S3.
  split; [exact S3 |]. split; [exact S2 |].
  now rewrite (trim_start_fixed _ S3), (trim_end_fixed _ S2).
Qed.

Lemma executeCommand_returns_trimmed_output_witness :
  exists result before after,
    says node22_noisy (executeCommand node22_noisy list_command) start
         (Ret result) [list_command] []
    /\ inventory_noisy = (before ++ result ++ after)%string
    /\ all_space before = true /\ all_space after = true
    /\ starts_with_space result = false /\ ends_with_space result = false
    /\ trim result = result.
Proof.
  apply (executeCommand_returns_trimmed_output node22_noisy list_command
           inventory_noisy start).
  reflexivity.
Defined.

(** The lines that [getEusecInstances] scans lose nothing of the trimmed
    output: joined by line feeds they give it back, and no line holds a
    line feed. *)
Theorem lines_partition_the_output output :
  String.concat (String LF EmptyString) (split LF (trim output)) = trim output
  /\ Forall (fun line => contains_char LF line = false)
            (split LF (trim output))
  /\ split LF (trim output) <> [].
Proof.
  split; [apply split_concat |]. split; [apply split_pieces |].
  destruct (trim output) as [| c s]; cbn [split]; [discriminate |].
  destruct (Ascii.eqb c LF); [discriminate |].
  destruct (split LF s); discriminate.
Qed.

(** When the inventory command succeeds, [getEusecInstances] returns the
    numbers of the first matches of the lines in the order of the lines,
    each at the place of its first occurrence. *)
Theorem instances_in_order_of_first_occurrence env w output :
  shell env (commands w) list_command = ExecOk output ->
  exists w',
    getEusecInstances env w
    = (Ret (first_occurrences (line_numbers (split LF (trim output)))), w').
Proof.
  intros H. destruct (getEusecInstances_runs env w) as (w' & E & _).
  unfold discovered in E. rewrite H, scan_lines_first_occurrences in E.
  now exists w'.
Qed.

Lemma instances_in_order_of_first_occurrence_witness :
  exists w',
    getEusecInstances node22_noisy start
    = (Ret (first_occurrences
              (line_numbers (split LF (trim inventory_noisy)))), w').
Proof.
  apply (instances_in_order_of_first_occurrence node22_noisy start
           inventory_noisy).
  reflexivity.
Defined.

(** An identifier written as the decimal numeral of an integer below [2^53]
    comes back unchanged: the line yields that integer, and the object id
    that [fixInstance] builds for it is the text found on the line. *)
Theorem identifier_round_trip line pre z rest :
  (0 <= z < 2 ^ 53)%Z ->
  First_match line pre (toString (Fin z)) rest ->
  scan_line [] line = [Fin z]
  /\ line = (pre ++ objectId (Fin z) ++ rest)%string.
Proof.
  intros Hz F. split.
  - unfold scan_line. rewrite (regex_match_first _ _ _ _ F).
    cbn [includes app]. f_equal.
    rewrite <- (append_empty_r (toString (Fin z))).
    now apply parseInt_toString.
  - destruct F as ((E & _) & _). rewrite E. unfold objectId.
    now rewrite append_assoc.
Qed.

Lemma identifier_round_trip_witness :
  scan_line [] "system.adapter.eusec.12 : instance" = [Fin 12]
  /\ "system.adapter.eusec.12 : instance"%string
     = ("" ++ objectId (Fin 12) ++ " : instance")%string.
Proof.
  apply (identifier_round_trip "system.adapter.eusec.12 : instance" "" 12
           " : instance").
  - split; [discriminate | reflexivity].
  - split; [| split].
    + split; [vm_compute; reflexivity |].
      split; [vm_compute; discriminate | vm_compute; reflexivity].
    + reflexivity.
    + intros pre' ds' rest' _. apply Nat.le_0_l.
Defined.

Lemma not_own_tail c s : s <> String c s.
Proof.
  revert c. induction s as [| d s IH]; intros c H; [discriminate |].
  injection H as _ H. now apply (IH d).
Qed.

(** Leading zeros are not kept: an identifier written with a zero in front
    of the numeral of [z] yields [z] all the same, and the object id that
    [fixInstance] then addresses is not the text found on the line. *)
Theorem leading_zero_is_dropped line pre z rest :
  (0 <= z < 2 ^ 53)%Z ->
  First_match line pre (String "0" (toString (Fin z))) rest ->
  scan_line [] line = [Fin z]
  /\ objectId (Fin z)
     <> (id_prefix ++ String "0" (toString (Fin z)))%string.
Proof.
  intros Hz F. split.
  - unfold scan_line. rewrite (regex_match_first _ _ _ _ F).
    cbn [includes app]. f_equal.
    destruct F as ((_ & N & D) & _).
    rewrite parseInt_all_digits by assumption.
    cbn [digits_value]. change (10 * 0 + digit_value "0")%Z with 0%Z.
    rewrite toString_is_decimal by exact Hz.
    destruct (decimal_digits z (proj1 Hz)) as (_ & _ & V).
    rewrite V. now apply to_double_small.
  - unfold objectId. intros E. apply append_inv_head in E.
    now apply not_own_tail in E.
Qed.

Lemma leading_zero_is_dropped_witness :
  scan_line [] "system.adapter.eusec.07" = [Fin 7]
  /\ objectId (Fin 7) <> (id_prefix ++ String "0" (toString (Fin 7)))%string.
Proof.
  apply (leading_zero_is_dropped "system.adapter.eusec.07" "" 7 "").
  - split; [discriminate | reflexivity].
  - split; [| split].
    + split; [vm_compute; reflexivity |].
      split; [vm_compute; discriminate | vm_compute; reflexivity].
    + reflexivity.
    + intros pre' ds' rest' _. apply Nat.le_0_l.
Defined.

(** For a version made of one character, the decimal numeral of an integer
    [z] below [2^53], a dot and anything, [getNodeVersion] returns [z], and
    [main] takes the early exit exactly when [z] is below 22. *)
Theorem version_gate_reads_the_major env w c z rest :
  version env = String c (toString (Fin z) ++ String "." rest) ->
  c <> "."%char ->
  (0 <= z < 2 ^ 53)%Z ->
  reported_major env = Fin z
  /\ exists status w',
       main env w = (Exit status, w')
       /\ ((z < 22)%Z -> status = 0%Z /\ commands w' = commands w)
       /\ ((22 <= z)%Z ->
           commands w'
           = commands w
             ++ list_command
                :: map set_command (discovered env (commands w))).
Proof.
  intros V C Hz.
  assert (R : reported_major env = Fin z).
  { unfold reported_major. rewrite V.
    rewrite toString_is_decimal by exact Hz.
    destruct (decimal_digits z (proj1 Hz)) as (N & D & Val).
    change (String c (decimal z ++ String "." rest))
      with (String c (decimal z) ++ String "." rest)%string.
    rewrite split_first.
    - cbn [substring1]. rewrite parseInt_all_digits by assumption.
      rewrite Val. now apply to_double_small.
    - cbn [contains_char]. rewrite (digits_without_dot _ D).
      destruct (Ascii.eqb c ".") eqn:E; [| reflexivity].
      now apply Ascii.eqb_eq in E. }
  split; [exact R |].
  destruct (lt (reported_major env) (Fin 22)) eqn:Hlt.
  - destruct (main_early env w Hlt) as (w' & E & Cm).
    rewrite R in Hlt. cbn [lt] in Hlt. apply Z.ltb_lt in Hlt.
    exists 0%Z, w'. split; [exact E |].
    split; [| lia]. intros _. split; [reflexivity |].
    now rewrite Cm, app_nil_r.
  - destruct (main_late env w Hlt) as (w' & E & Cm).
    rewrite R in Hlt. cbn [lt] in Hlt. apply Z.ltb_ge in Hlt.
    eexists _, w'. split; [exact E |].
    split; [lia |]. intros _. exact Cm.
Qed.

Lemma version_gate_reads_the_major_witness :
  reported_major node22 = Fin 22
  /\ exists status w',
       main node22 start = (Exit status, w')
       /\ ((22 < 22)%Z -> status = 0%Z /\ commands w' = commands start)
       /\ ((22 <= 22)%Z ->
           commands w'
           = commands start
             ++ list_command
                :: map set_command (discovered node22 (commands start))).
Proof.
  apply (version_gate_reads_the_major node22 start "v" 22 "3.0").
  - vm_compute. reflexivity.
  - discriminate.
  - split; [discriminate | reflexivity].
Defined.

(** The console tells the status: [main] logs the start banner first, and
    last the success banner when the status is 0 and the error banner when
    it is 1. *)
Theorem main_transcript_tells_the_status env w :
  exists status middle w',
    main env w = (Exit status, w')
    /\ (status = 0%Z \/ status = 1%Z)
    /\ console w'
       = console w
         ++ stamped env (List.length (console w))
              (start_banner :: middle ++ [closing status]).
Proof.
  destruct (lt (reported_major env) (Fin 22)) eqn:Hlt.
  - destruct (main_early_says env w Hlt) as (middle & w' & E & _ & L).
    exists 0%Z, middle, w'. split; [exact E |]. split; [now left | exact L].
  - destruct (main_late_says env w Hlt) as (middle & w' & E & _ & L).
    eexists _, middle, w'. split; [exact E |]. split; [| exact L].
    destruct (0 <? _)%Z; auto.
Qed.

(** When its command fails, [fixInstance] throws the error of the command
    with its message unchanged, after four log lines: the two that announce
    the command, the one of [executeCommand] and its own. *)
Theorem fixInstance_failure_is_logged_and_rethrown env n message w :
  shell env (commands w) (set_command n) = ExecFail message ->
  says env (fixInstance env n) w (Throw message) [set_command n]
       [ ("Fixing instance " ++ toString n ++ "...")%string;
         ("Executing: " ++ set_command n)%string;
         ("Error executing command " ++ String DQ (set_command n)
          ++ String DQ ": " ++ message)%string;
         ("Failed to fix instance " ++ toString n ++ ": " ++ message)%string ].
Proof.
  intros H. pose proof (fixInstance_says env n w) as S.
  now rewrite H in S.
Qed.

Lemma fixInstance_failure_is_logged_and_rethrown_witness :
  says node22_first_broken (fixInstance node22_first_broken (Fin 0)) start
       (Throw "Command failed") [set_command (Fin 0)]
       [ ("Fixing instance " ++ toString (Fin 0) ++ "...")%string;
         ("Executing: " ++ set_command (Fin 0))%string;
         ("Error executing command " ++ String DQ (set_command (Fin 0))
          ++ String DQ ": " ++ "Command failed")%string;
         ("Failed to fix instance " ++ toString (Fin 0) ++ ": "
          ++ "Command failed")%string ].
Proof.
  apply (fixInstance_failure_is_logged_and_rethrown node22_first_broken
           (Fin 0) "Command failed" start).
  vm_compute. reflexivity.
Defined.

(** Distinct instances below [2^53] get distinct mutation commands. *)
Lemma set_command_injective a b :
  (0 <= a < 2 ^ 53)%Z -> (0 <= b < 2 ^ 53)%Z ->
  set_command (Fin a) = set_command (Fin b) -> a = b.
Proof.
  intros Ha Hb E. unfold set_command, objectId in E.
  apply append_inv_head in E. rewrite !append_assoc in E.
  apply append_inv_head in E.
  assert (F : Fin a = Fin b).
  { rewrite <- (parseInt_toString a " common.nodeProcessParams=[]" Ha eq_refl).
    rewrite E. now apply parseInt_toString. }
  now injection F.
Qed.

Lemma set_commands_differ l :
  NoDup l -> Forall small l -> NoDup (map set_command l).
Proof.
  induction 1 as [| n l Hn N IH]; intros S; cbn [map]; [constructor |].
  inversion S as [| ? ? Sn Sl]; subst.
  constructor; [| now apply IH].
  intros I. apply in_map_iff in I. destruct I as (m & E' & I).
  destruct Sn as (a & -> & Ha).
  rewrite Forall_forall in Sl. destruct (Sl m I) as (b & -> & Hb).
  apply set_command_injective in E'; [| assumption | assumption].
  subst b. contradiction.
Qed.

(** When every discovered instance is below [2^53], [main] executes no
    command twice: the inventory command once, and one mutation command per
    instance, all different. *)
Theorem main_never_repeats_a_command env w :
  Forall small (discovered env (commands w)) ->
  exists status w' executed,
    main env w = (Exit status, w')
    /\ commands w' = commands w ++ executed
    /\ NoDup executed.
Proof.
  intros S.
  destruct (lt (reported_major env) (Fin 22)) eqn:Hlt.
  - destruct (main_early env w Hlt) as (w' & E & C).
    exists 0%Z, w', []. split; [exact E |]. split; [exact C | constructor].
  - destruct (main_late env w Hlt) as (w' & E & C).
    eexists _, w', _. split; [exact E |]. split; [exact C |].
    assert (N : NoDup (discovered env (commands w))).
    { unfold discovered. destruct (shell env (commands w) list_command).
      - apply scan_lines_NoDup. constructor.
      - constructor. }
    constructor.
    + intros I. apply in_map_iff in I. destruct I as (n & I & _).
      unfold set_command, list_command in I. cbn [append] in I.
      discriminate I.
    + now apply set_commands_differ.
Qed.

Lemma main_never_repeats_a_command_witness :
  exists status w' executed,
    main node22 start = (Exit status, w')
    /\ commands w' = commands start ++ executed
    /\ NoDup executed.
Proof.
  apply (main_never_repeats_a_command node22 start).
  assert (D : discovered node22 (commands start) = [Fin 0; Fin 2])
    by (vm_compute; reflexivity).
  rewrite D.
  constructor;
    [exists 0%Z; split; [reflexivity | split; [discriminate | reflexivity]] |].
  constructor;
    [exists 2%Z; split; [reflexivity | split; [discriminate | reflexivity]] |].
  constructor.
Defined.

(** No identifier is missed: a line adds a number to the empty array
    exactly when [system.adapter.eusec.] followed by a digit occurs
    somewhere in it, whatever surrounds the occurrence. *)
Theorem line_yields_a_number_iff_it_holds_an_identifier line :
  (exists n, scan_line [] line = [n]) <-> Contains_id line.
Proof.
  unfold scan_line. split.
  - intros (n & H).
    destruct (regex_match line) as [ds |] eqn:M; [| discriminate H].
    destruct (regex_match_inv _ _ M) as (pre & rest & O & _).
    now exists pre, ds, rest.
  - intros C. destruct (regex_match line) as [ds |] eqn:M.
    + now exists (parseInt ds).
    + now apply regex_match_none in M.
Qed.

End Further.
